(** * java-ast: the Writer emission engine and the Class node

  A shallow embedding of [libs/java-ast/src/lib/core/Writer.ts] and
  [libs/java-ast/src/lib/ast/Class.ts], followed by the properties of the
  rendered document: same-package suppression, import deduplication and
  ordering, the blank-line discipline, the indentation floor, and the
  emission order of a class body.

  Conventions of the embedding.
  - A JavaScript string is the list of its UTF-16 code units ([jsstring]);
    [===] on strings is equality of these lists and the default comparison
    of [Array.prototype.sort] is their lexicographic order.
  - A [Set<string>] is the list of its elements in insertion order, which
    is the order in which the spread operator enumerates it.
  - A mutating method [m(args): void] of an object is a function from the
    arguments and the state before the call to the state after it.
  - [indentLevel] is a JavaScript number that only ever holds integers; it
    is an integer of [Z], so that its sign is a property to be proved and
    not one of the type. *)

From Stdlib Require Import List NArith ZArith Lia Bool.
From Stdlib Require Ascii String.
From Stdlib Require Import Sorting.Sorted Sorting.Permutation.
Import ListNotations.
Import String.StringSyntax.

Set Implicit Arguments.
Local Open Scope string_scope.
Local Open Scope list_scope.

(* ------------------------------------------------------------------------- *)
(** ** JavaScript strings *)

Module JsString.

(** One UTF-16 code unit. *)
Definition unit := N.

Definition jsstring := list unit.

Definition eq_dec : forall a b : jsstring, {a = b} + {a <> b} :=
  list_eq_dec N.eq_dec.

(** [a === b] *)
Definition eqb (a b : jsstring) : bool :=
  if eq_dec a b then true else false.

(** The code units of a literal of the source text. *)
Fixpoint lit (s : String.string) : jsstring :=
  match s with
  | String.EmptyString => []
  | String.String c s' => Ascii.N_of_ascii c :: lit s'
  end.

(** The code unit of ["\n"]. *)
Definition nl : unit := 10%N.

(** [a < b] on strings: the first differing code unit decides, and a
    proper prefix is smaller. *)
Fixpoint ltb (a b : jsstring) : bool :=
  match a, b with
  | _, [] => false
  | [], _ :: _ => true
  | x :: a', y :: b' =>
      if (x <? y)%N then true
      else if (y <? x)%N then false
      else ltb a' b'
  end.

Definition lt (a b : jsstring) : Prop := ltb a b = true.

(** [s.repeat(n)] for a count that is not negative. *)
Fixpoint repeat (s : jsstring) (n : nat) : jsstring :=
  match n with
  | O => []
  | S n' => s ++ repeat s n'
  end.

(** [s.split("\n")]: the pieces between the line breaks, at least one. *)
Fixpoint split_nl_aux (cur : jsstring) (s : jsstring) : list jsstring :=
  match s with
  | [] => [rev cur]
  | c :: s' =>
      if (c =? nl)%N then rev cur :: split_nl_aux [] s'
      else split_nl_aux (c :: cur) s'
  end.

Definition split_nl (s : jsstring) : list jsstring := split_nl_aux [] s.

(** [parts.join(sep)] *)
Fixpoint join (sep : jsstring) (parts : list jsstring) : jsstring :=
  match parts with
  | [] => []
  | [p] => p
  | p :: rest => p ++ sep ++ join sep rest
  end.

(** Truthiness of an optional string: [undefined] and [""] are falsy. *)
Definition truthy (o : option jsstring) : bool :=
  match o with
  | Some (_ :: _) => true
  | _ => false
  end.

(** The class [\s] of a regular expression without the [u] flag, on one
    code unit: the white space and the line terminators of ECMAScript. *)
Definition isWhiteSpace (c : unit) : bool :=
  ((c =? 9) || (c =? 10) || (c =? 11) || (c =? 12) || (c =? 13)
   || (c =? 32) || (c =? 160) || (c =? 5760)
   || ((8192 <=? c) && (c <=? 8202))
   || (c =? 8232) || (c =? 8233) || (c =? 8239) || (c =? 8287)
   || (c =? 12288) || (c =? 65279))%N.

(** The code unit of [" "]. *)
Definition space : unit := 32%N.

(** The comparison [Array.prototype.sort] uses when it is given no
    comparator, on an array of strings.  The algorithm is left to the
    engine, which must be stable and leave the array ordered; the result is
    then determined by the array, and a stable insertion sort computes it. *)
Fixpoint insert (x : jsstring) (l : list jsstring) : list jsstring :=
  match l with
  | [] => [x]
  | y :: l' => if ltb y x then y :: insert x l' else x :: y :: l'
  end.

Definition sort (l : list jsstring) : list jsstring :=
  fold_right insert [] l.

End JsString.

Import JsString.

(* ------------------------------------------------------------------------- *)
(** ** [Set<string>] *)

Module JsSet.

(** The elements, oldest first. *)
Definition t := list jsstring.

Definition empty : t := [].

(** [s.add(x)]: a value already present keeps its place. *)
Definition add (x : jsstring) (s : t) : t :=
  if in_dec JsString.eq_dec x s then s else s ++ [x].

(** [new Set(xs)] *)
Definition of_list (xs : list jsstring) : t :=
  fold_left (fun s x => add x s) xs empty.

(** [[...s]] *)
Definition elements (s : t) : list jsstring := s.

End JsSet.

(* ------------------------------------------------------------------------- *)
(** ** ClassReference: a type named by its simple name and its package *)

Module ClassReference.

Record t := mk { name : jsstring; packageName : jsstring }.

(** The text [`${reference.packageName}.${reference.name}`]. *)
Definition qualified (r : t) : jsstring :=
  packageName r ++ lit "." ++ name r.

End ClassReference.

(* ------------------------------------------------------------------------- *)
(** ** Writer *)

Module Writer.

Record WriterConfig := mkConfig {
  cfg_packageName : jsstring;
  cfg_skipPackageDeclaration : option bool
}.

Record t := mk {
  indentLevel : Z;
  buffer : jsstring;
  imports : JsSet.t;
  references : JsSet.t;
  packageName : jsstring;
  skipPackageDeclaration : bool
}.

(** [new Writer(config)] *)
Definition new (config : WriterConfig) : t :=
  {| indentLevel := 0;
     buffer := [];
     imports := JsSet.empty;
     references := JsSet.empty;
     packageName := cfg_packageName config;
     skipPackageDeclaration :=
       match cfg_skipPackageDeclaration config with
       | Some b => b || false
       | None => false
       end |}.

Definition set_indentLevel (n : Z) (w : t) : t :=
  mk n (buffer w) (imports w) (references w) (packageName w)
     (skipPackageDeclaration w).

Definition set_buffer (b : jsstring) (w : t) : t :=
  mk (indentLevel w) b (imports w) (references w) (packageName w)
     (skipPackageDeclaration w).

Definition set_imports (s : JsSet.t) (w : t) : t :=
  mk (indentLevel w) (buffer w) s (references w) (packageName w)
     (skipPackageDeclaration w).

Definition set_references (s : JsSet.t) (w : t) : t :=
  mk (indentLevel w) (buffer w) (imports w) s (packageName w)
     (skipPackageDeclaration w).

Definition indent (w : t) : t :=
  set_indentLevel (indentLevel w + 1) w.

Definition dedent (w : t) : t :=
  if (indentLevel w >? 0)%Z
  then set_indentLevel (indentLevel w - 1) w
  else w.

Definition write (text : jsstring) (w : t) : t :=
  set_buffer (buffer w ++ text) w.

(** ["    ".repeat(this.indentLevel)]; the count is never negative, as the
    section on indentation below proves. *)
Definition getIndentation (w : t) : jsstring :=
  JsString.repeat (lit "    ") (Z.to_nat (indentLevel w)).

Definition writeLine (text : option jsstring) (w : t) : t :=
  let w :=
    match text with
    | Some text => set_buffer (buffer w ++ (getIndentation w ++ text)) w
    | None => w
    end in
  set_buffer (buffer w ++ [nl]) w.

Definition newLine (w : t) : t :=
  set_buffer (buffer w ++ [nl]) w.

(** [this.buffer[this.buffer.length - 1]], [undefined] on the empty string. *)
Definition lastUnit (s : jsstring) : option unit :=
  match s with
  | [] => None
  | _ :: _ => nth_error s (length s - 1)
  end.

Definition writeNewLineIfLastLineNot (w : t) : t :=
  if (0 <? length (buffer w))%nat
     && negb (match lastUnit (buffer w) with
              | Some c => (c =? nl)%N
              | None => false
              end)
  then set_buffer (buffer w ++ [nl]) w
  else w.

Definition addReference (reference : ClassReference.t) (w : t) : t :=
  if JsString.eqb (ClassReference.packageName reference) (packageName w)
  then w
  else set_references
         (JsSet.add (ClassReference.qualified reference) (references w)) w.

Definition addImport (importName : jsstring) (w : t) : t :=
  set_imports (JsSet.add importName (imports w)) w.

(** The array [allImports] as it is built, before it is sorted. *)
Definition allImports (w : t) : list jsstring :=
  JsSet.elements
    (JsSet.of_list (JsSet.elements (imports w)
                    ++ JsSet.elements (references w))).

(** One step of the [forEach] of [toString]. *)
Definition importLine (importName : jsstring) : jsstring :=
  lit "import " ++ importName ++ lit ";" ++ [nl].

Definition toString (w : t) : jsstring :=
  let result := [] in
  let result :=
    if negb (skipPackageDeclaration w)
    then result ++ (lit "package " ++ packageName w ++ lit ";" ++ [nl; nl])
    else result in
  let allImports := JsString.sort (allImports w) in
  let result :=
    fold_left (fun result importName => result ++ importLine importName)
              allImports result in
  let result :=
    if (0 <? length allImports)%nat then result ++ [nl] else result in
  result ++ buffer w.

(** [code.replace(/\s+/g, " ")]: from left to right, every maximal run of
    white space is replaced by one space.  [inRun] tells that the code unit
    before the current one belongs to a run whose space is already out. *)
Fixpoint replaceSpaces (inRun : bool) (code : jsstring) : jsstring :=
  match code with
  | [] => []
  | c :: code' =>
      if isWhiteSpace c
      then if inRun then replaceSpaces true code'
           else space :: replaceSpaces true code'
      else c :: replaceSpaces false code'
  end.

Definition formatCode (code : jsstring) : jsstring :=
  replaceSpaces false code.

(** *** The calls a node can make on the writer it is handed

    The node classes other than [Class] are not part of the sources at
    hand.  Seen from the writer, what the [write] method of such a node
    does is a finite sequence of calls of the writer's public mutating
    methods; a node is represented by that sequence. *)
Inductive Op :=
| OpIndent
| OpDedent
| OpWrite (text : jsstring)
| OpWriteLine (text : option jsstring)
| OpNewLine
| OpWriteNewLineIfLastLineNot
| OpAddReference (reference : ClassReference.t)
| OpAddImport (importName : jsstring).

Definition step (w : t) (o : Op) : t :=
  match o with
  | OpIndent => indent w
  | OpDedent => dedent w
  | OpWrite text => write text w
  | OpWriteLine text => writeLine text w
  | OpNewLine => newLine w
  | OpWriteNewLineIfLastLineNot => writeNewLineIfLastLineNot w
  | OpAddReference r => addReference r w
  | OpAddImport s => addImport s w
  end.

Definition run (ops : list Op) (w : t) : t := fold_left step ops w.

Definition IAstNode := list Op.

(** [writer.writeNode(node)] is [node.write(writer)]. *)
Definition writeNode (node : IAstNode) (w : t) : t := run node w.

End Writer.

Import Writer.

(* ------------------------------------------------------------------------- *)
(** ** Loops over arrays *)

(** [xs.forEach((x) => body)] where [body] acts on the writer. *)
Definition forEach {A : Type} (body : A -> Writer.t -> Writer.t)
  (xs : list A) (w : Writer.t) : Writer.t :=
  fold_left (fun w x => body x w) xs w.

(** [xs.forEach((x, index) => body)] *)
Definition forEachIndexed {A : Type} (body : A -> Z -> Writer.t -> Writer.t)
  (xs : list A) (w : Writer.t) : Writer.t :=
  snd (fold_left (fun st x => (fst st + 1, body x (fst st) (snd st)))%Z
                 xs (0%Z, w)).

(** [xs.length] as a number. *)
Definition len {A : Type} (xs : list A) : Z := Z.of_nat (length xs).

(* ------------------------------------------------------------------------- *)
(** ** The nodes a class is made of

    [Access] is a string enum and [Parameter], [CodeBlock], [Annotation],
    [Field], [Method], [Interface] and [Enum] are node classes; none of their
    sources is at hand.  A value of [Access] is the text the template literal
    renders for it, and a node is the sequence of writer calls of its
    [write], as [Writer.IAstNode] describes.  Of a [Parameter] the class also
    reads [name] and [docs]. *)

Definition Access := jsstring.

Module Parameter_.

Record t := mk {
  name : jsstring;
  docs : option jsstring;
  write : IAstNode
}.

End Parameter_.

Module Constructor.

(** [Class.Constructor] *)
Record t := mk {
  body : option IAstNode;
  parameters : list Parameter_.t;
  access : Access;
  javadoc : option jsstring;
  annotations : option (list IAstNode);
  superCall : option IAstNode;
  thisCall : option IAstNode;
  throws : option (list ClassReference.t)
}.

End Constructor.

(* ------------------------------------------------------------------------- *)
(** ** Class *)

Module Class_.

(** [Class.Args] *)
Record Args := mkArgs {
  arg_name : jsstring;
  arg_packageName : jsstring;
  arg_access : Access;
  arg_abstract_ : option bool;
  arg_final_ : option bool;
  arg_static_ : option bool;
  arg_extends_ : option ClassReference.t;
  arg_implements_ : option (list ClassReference.t);
  arg_isNestedClass : option bool;
  arg_annotations : option (list IAstNode);
  arg_javadoc : option jsstring;
  arg_typeParameters : option (list jsstring)
}.

#[warnings="-register-all"]
Inductive t := mk {
  name : jsstring;
  packageName : jsstring;
  access : Access;
  abstract_ : bool;
  final_ : bool;
  static_ : bool;
  reference : ClassReference.t;
  isNestedClass : bool;
  extends_ : option ClassReference.t;
  implements_ : list ClassReference.t;
  annotations : list IAstNode;
  javadoc : option jsstring;
  typeParameters : list jsstring;
  fields : list IAstNode;
  constructors : list Constructor.t;
  methods : list IAstNode;
  nestedClasses : list t;
  nestedInterfaces : list IAstNode;
  nestedEnums : list IAstNode
}.

(** [x || false] and [xs || []] on an optional argument. *)
Definition orFalse (o : option bool) : bool :=
  match o with Some b => b || false | None => false end.

Definition orEmpty {A : Type} (o : option (list A)) : list A :=
  match o with Some xs => xs | None => [] end.

(** [new Class(args)] *)
Definition new (args : Args) : t :=
  {| name := arg_name args;
     packageName := arg_packageName args;
     access := arg_access args;
     abstract_ := orFalse (arg_abstract_ args);
     final_ := orFalse (arg_final_ args);
     static_ := orFalse (arg_static_ args);
     extends_ := arg_extends_ args;
     implements_ := orEmpty (arg_implements_ args);
     isNestedClass := orFalse (arg_isNestedClass args);
     annotations := orEmpty (arg_annotations args);
     javadoc := arg_javadoc args;
     typeParameters := orEmpty (arg_typeParameters args);
     reference := ClassReference.mk (arg_name args) (arg_packageName args);
     fields := [];
     constructors := [];
     methods := [];
     nestedClasses := [];
     nestedInterfaces := [];
     nestedEnums := [] |}.

Definition addField (field : IAstNode) (c : t) : t :=
  mk (name c) (packageName c) (access c) (abstract_ c) (final_ c) (static_ c)
     (reference c) (isNestedClass c) (extends_ c) (implements_ c)
     (annotations c) (javadoc c) (typeParameters c)
     (fields c ++ [field]) (constructors c) (methods c)
     (nestedClasses c) (nestedInterfaces c) (nestedEnums c).

Definition addConstructor (constructor : Constructor.t) (c : t) : t :=
  mk (name c) (packageName c) (access c) (abstract_ c) (final_ c) (static_ c)
     (reference c) (isNestedClass c) (extends_ c) (implements_ c)
     (annotations c) (javadoc c) (typeParameters c)
     (fields c) (constructors c ++ [constructor]) (methods c)
     (nestedClasses c) (nestedInterfaces c) (nestedEnums c).

Definition addMethod (method : IAstNode) (c : t) : t :=
  mk (name c) (packageName c) (access c) (abstract_ c) (final_ c) (static_ c)
     (reference c) (isNestedClass c) (extends_ c) (implements_ c)
     (annotations c) (javadoc c) (typeParameters c)
     (fields c) (constructors c) (methods c ++ [method])
     (nestedClasses c) (nestedInterfaces c) (nestedEnums c).

Definition addNestedClass (nestedClass : t) (c : t) : t :=
  mk (name c) (packageName c) (access c) (abstract_ c) (final_ c) (static_ c)
     (reference c) (isNestedClass c) (extends_ c) (implements_ c)
     (annotations c) (javadoc c) (typeParameters c)
     (fields c) (constructors c) (methods c)
     (nestedClasses c ++ [nestedClass]) (nestedInterfaces c) (nestedEnums c).

Definition addNestedInterface (nestedInterface : IAstNode) (c : t) : t :=
  mk (name c) (packageName c) (access c) (abstract_ c) (final_ c) (static_ c)
     (reference c) (isNestedClass c) (extends_ c) (implements_ c)
     (annotations c) (javadoc c) (typeParameters c)
     (fields c) (constructors c) (methods c)
     (nestedClasses c) (nestedInterfaces c ++ [nestedInterface]) (nestedEnums c).

Definition addNestedEnum (nestedEnum : IAstNode) (c : t) : t :=
  mk (name c) (packageName c) (access c) (abstract_ c) (final_ c) (static_ c)
     (reference c) (isNestedClass c) (extends_ c) (implements_ c)
     (annotations c) (javadoc c) (typeParameters c)
     (fields c) (constructors c) (methods c)
     (nestedClasses c) (nestedInterfaces c) (nestedEnums c ++ [nestedEnum]).

(** [private writeConstructor(writer, constructor)]; of [this] the method
    reads the class name only. *)
Definition writeConstructor (this_name : jsstring)
  (constructor : Constructor.t) (w : Writer.t) : Writer.t :=
  (* Write JavaDoc if provided *)
  let w :=
    if truthy (Constructor.javadoc constructor)
       || existsb (fun param => truthy (Parameter_.docs param))
                  (Constructor.parameters constructor)
    then
      let w := writeLine (Some (lit "/**")) w in
      let w :=
        match Constructor.javadoc constructor with
        | Some ((_ :: _) as javadoc) =>
            forEach (fun line => writeLine (Some (lit " * " ++ line)))
                    (split_nl javadoc) w
        | _ => w
        end in
      let w :=
        forEach
          (fun param w =>
             match Parameter_.docs param with
             | Some ((_ :: _) as docs) =>
                 writeLine
                   (Some (lit " * @param " ++ Parameter_.name param
                          ++ lit " " ++ docs)) w
             | _ => w
             end)
          (Constructor.parameters constructor) w in
      writeLine (Some (lit " */")) w
    else w in
  (* Write annotations *)
  let w :=
    match Constructor.annotations constructor with
    | Some annotations =>
        forEach (fun annotation w => writeLine None (writeNode annotation w))
                annotations w
    | None => w
    end in
  (* Write constructor declaration *)
  let w :=
    write (Constructor.access constructor ++ lit " " ++ this_name ++ lit "(")
          w in
  (* Write parameters *)
  let w :=
    forEachIndexed
      (fun parameter index w =>
         let w := writeNode (Parameter_.write parameter) w in
         if (index <? len (Constructor.parameters constructor) - 1)%Z
         then write (lit ", ") w
         else w)
      (Constructor.parameters constructor) w in
  let w := write (lit ")") w in
  (* Write throws clause if any *)
  let w :=
    match Constructor.throws constructor with
    | Some throws =>
        if (len throws >? 0)%Z then
          let w := write (lit " throws ") w in
          forEachIndexed
            (fun throwsClass index w =>
               let w := addReference throwsClass w in
               let w := write (ClassReference.name throwsClass) w in
               if (index <? len throws - 1)%Z
               then write (lit ", ") w
               else w)
            throws w
        else w
    | None => w
    end in
  let w := writeLine (Some (lit " {")) w in
  let w := indent w in
  (* Write super or this call if provided *)
  let w :=
    match Constructor.superCall constructor with
    | Some superCall =>
        let w := write (lit "super(") w in
        let w := writeNode superCall w in
        writeLine (Some (lit ");")) w
    | None =>
        match Constructor.thisCall constructor with
        | Some thisCall =>
            let w := write (lit "this(") w in
            let w := writeNode thisCall w in
            writeLine (Some (lit ");")) w
        | None => w
        end
    end in
  (* Write constructor body if provided *)
  let w :=
    match Constructor.body constructor with
    | Some body => writeNode body w
    | None => w
    end in
  let w := dedent w in
  writeLine (Some (lit "}")) w.

(** [public write(writer)].  A nested class is written as the value it has
    when the document is rendered. *)
Fixpoint write (this : t) (w : Writer.t) : Writer.t :=
  (* Write JavaDoc if provided *)
  let w :=
    match javadoc this with
    | Some ((_ :: _) as javadoc) =>
        let w := writeLine (Some (lit "/**")) w in
        let w :=
          forEach (fun line => writeLine (Some (lit " * " ++ line)))
                  (split_nl javadoc) w in
        writeLine (Some (lit " */")) w
    | _ => w
    end in
  (* Write annotations *)
  let w :=
    forEach (fun annotation w => writeLine None (writeNode annotation w))
            (annotations this) w in
  (* Write class declaration *)
  let w := Writer.write (access this ++ lit " ") w in
  (* Add class modifiers *)
  let w := if abstract_ this then Writer.write (lit "abstract ") w else w in
  let w := if final_ this then Writer.write (lit "final ") w else w in
  let w := if static_ this then Writer.write (lit "static ") w else w in
  let w := Writer.write (lit "class ") w in
  let w := Writer.write (name this) w in
  (* Write generic type parameters if any *)
  let w :=
    if (len (typeParameters this) >? 0)%Z then
      let w := Writer.write (lit "<") w in
      let w := Writer.write (join (lit ", ") (typeParameters this)) w in
      Writer.write (lit ">") w
    else w in
  (* Write extends clause if any *)
  let w :=
    match extends_ this with
    | Some extends_ =>
        let w := Writer.write (lit " extends ") w in
        let w := addReference extends_ w in
        Writer.write (ClassReference.name extends_) w
    | None => w
    end in
  (* Write implements clause if any *)
  let w :=
    if (len (implements_ this) >? 0)%Z then
      let w := Writer.write (lit " implements ") w in
      forEachIndexed
        (fun interfaceRef index w =>
           let w := addReference interfaceRef w in
           let w := Writer.write (ClassReference.name interfaceRef) w in
           if (index <? len (implements_ this) - 1)%Z
           then Writer.write (lit ", ") w
           else w)
        (implements_ this) w
    else w in
  let w := writeLine (Some (lit " {")) w in
  let w := indent w in
  (* Write fields *)
  let w :=
    forEach (fun field w => newLine (writeLine None (writeNode field w)))
            (fields this) w in
  (* Write constructors *)
  let w :=
    forEach (fun constructor w =>
               newLine (writeConstructor (name this) constructor w))
            (constructors this) w in
  (* Write methods *)
  let w :=
    forEach (fun method w => newLine (writeNode method w))
            (methods this) w in
  (* Write nested classes *)
  let w :=
    forEach (fun nestedClass w => newLine (write nestedClass w))
            (nestedClasses this) w in
  (* Write nested interfaces *)
  let w :=
    forEach (fun nestedInterface w => newLine (writeNode nestedInterface w))
            (nestedInterfaces this) w in
  (* Write nested enums *)
  let w :=
    forEach (fun nestedEnum w => newLine (writeNode nestedEnum w))
            (nestedEnums this) w in
  let w := dedent w in
  writeLine (Some (lit "}")) w.

(** *** The body of a class, member by member

    The members of a class in the order the description of the output gives:
    fields, constructors, methods, nested classes, nested interfaces, nested
    enums, each group in the order of its array.  [write] is compared with
    this reading in [write_by_members]. *)
Inductive Member :=
| Field (field : IAstNode)
| Ctor (constructor : Constructor.t)
| Method (method : IAstNode)
| NestedClass (nestedClass : t)
| NestedInterface (nestedInterface : IAstNode)
| NestedEnum (nestedEnum : IAstNode).

Definition members (c : t) : list Member :=
  map Field (fields c)
  ++ map Ctor (constructors c)
  ++ map Method (methods c)
  ++ map NestedClass (nestedClasses c)
  ++ map NestedInterface (nestedInterfaces c)
  ++ map NestedEnum (nestedEnums c).

(** One of the six [add...] methods, chosen by the kind of the member. *)
Definition add (m : Member) (c : t) : t :=
  match m with
  | Field field => addField field c
  | Ctor constructor => addConstructor constructor c
  | Method method => addMethod method c
  | NestedClass nestedClass => addNestedClass nestedClass c
  | NestedInterface nestedInterface => addNestedInterface nestedInterface c
  | NestedEnum nestedEnum => addNestedEnum nestedEnum c
  end.

Definition isField (m : Member) : bool :=
  match m with Field _ => true | _ => false end.
Definition isCtor (m : Member) : bool :=
  match m with Ctor _ => true | _ => false end.
Definition isMethod (m : Member) : bool :=
  match m with Method _ => true | _ => false end.
Definition isNestedClass_ (m : Member) : bool :=
  match m with NestedClass _ => true | _ => false end.
Definition isNestedInterface (m : Member) : bool :=
  match m with NestedInterface _ => true | _ => false end.
Definition isNestedEnum (m : Member) : bool :=
  match m with NestedEnum _ => true | _ => false end.

(** What the loop of its section does with one member. *)
Definition writeMember (this_name : jsstring) (m : Member) (w : Writer.t)
  : Writer.t :=
  match m with
  | Field field => newLine (writeLine None (writeNode field w))
  | Ctor constructor => newLine (writeConstructor this_name constructor w)
  | Method method => newLine (writeNode method w)
  | NestedClass nestedClass => newLine (write nestedClass w)
  | NestedInterface nestedInterface => newLine (writeNode nestedInterface w)
  | NestedEnum nestedEnum => newLine (writeNode nestedEnum w)
  end.

(** The part of [write] before the body: JavaDoc, annotations, the
    declaration line with its opening brace, and [indent]. *)
Definition writeDeclaration (this : t) (w : Writer.t) : Writer.t :=
  let w :=
    match javadoc this with
    | Some ((_ :: _) as javadoc) =>
        let w := writeLine (Some (lit "/**")) w in
        let w :=
          forEach (fun line => writeLine (Some (lit " * " ++ line)))
                  (split_nl javadoc) w in
        writeLine (Some (lit " */")) w
    | _ => w
    end in
  let w :=
    forEach (fun annotation w => writeLine None (writeNode annotation w))
            (annotations this) w in
  let w := Writer.write (access this ++ lit " ") w in
  let w := if abstract_ this then Writer.write (lit "abstract ") w else w in
  let w := if final_ this then Writer.write (lit "final ") w else w in
  let w := if static_ this then Writer.write (lit "static ") w else w in
  let w := Writer.write (lit "class ") w in
  let w := Writer.write (name this) w in
  let w :=
    if (len (typeParameters this) >? 0)%Z then
      let w := Writer.write (lit "<") w in
      let w := Writer.write (join (lit ", ") (typeParameters this)) w in
      Writer.write (lit ">") w
    else w in
  let w :=
    match extends_ this with
    | Some extends_ =>
        let w := Writer.write (lit " extends ") w in
        let w := addReference extends_ w in
        Writer.write (ClassReference.name extends_) w
    | None => w
    end in
  let w :=
    if (len (implements_ this) >? 0)%Z then
      let w := Writer.write (lit " implements ") w in
      forEachIndexed
        (fun interfaceRef index w =>
           let w := addReference interfaceRef w in
           let w := Writer.write (ClassReference.name interfaceRef) w in
           if (index <? len (implements_ this) - 1)%Z
           then Writer.write (lit ", ") w
           else w)
        (implements_ this) w
    else w in
  let w := writeLine (Some (lit " {")) w in
  indent w.

(** *** The phases of [writeConstructor] around the delegation call *)

(** Up to and including [writer.indent()]. *)
Definition constructorOpening (this_name : jsstring)
  (constructor : Constructor.t) (w : Writer.t) : Writer.t :=
  let w :=
    if truthy (Constructor.javadoc constructor)
       || existsb (fun param => truthy (Parameter_.docs param))
                  (Constructor.parameters constructor)
    then
      let w := writeLine (Some (lit "/**")) w in
      let w :=
        match Constructor.javadoc constructor with
        | Some ((_ :: _) as javadoc) =>
            forEach (fun line => writeLine (Some (lit " * " ++ line)))
                    (split_nl javadoc) w
        | _ => w
        end in
      let w :=
        forEach
          (fun param w =>
             match Parameter_.docs param with
             | Some ((_ :: _) as docs) =>
                 writeLine
                   (Some (lit " * @param " ++ Parameter_.name param
                          ++ lit " " ++ docs)) w
             | _ => w
             end)
          (Constructor.parameters constructor) w in
      writeLine (Some (lit " */")) w
    else w in
  let w :=
    match Constructor.annotations constructor with
    | Some annotations =>
        forEach (fun annotation w => writeLine None (writeNode annotation w))
                annotations w
    | None => w
    end in
  let w :=
    Writer.write
      (Constructor.access constructor ++ lit " " ++ this_name ++ lit "(") w in
  let w :=
    forEachIndexed
      (fun parameter index w =>
         let w := writeNode (Parameter_.write parameter) w in
         if (index <? len (Constructor.parameters constructor) - 1)%Z
         then Writer.write (lit ", ") w
         else w)
      (Constructor.parameters constructor) w in
  let w := Writer.write (lit ")") w in
  let w :=
    match Constructor.throws constructor with
    | Some throws =>
        if (len throws >? 0)%Z then
          let w := Writer.write (lit " throws ") w in
          forEachIndexed
            (fun throwsClass index w =>
               let w := addReference throwsClass w in
               let w := Writer.write (ClassReference.name throwsClass) w in
               if (index <? len throws - 1)%Z
               then Writer.write (lit ", ") w
               else w)
            throws w
        else w
    | None => w
    end in
  let w := writeLine (Some (lit " {")) w in
  indent w.

(** The delegation call, as the [if] / [else if] of the method selects it. *)
Definition constructorDelegation (constructor : Constructor.t)
  (w : Writer.t) : Writer.t :=
  match Constructor.superCall constructor with
  | Some superCall =>
      let w := Writer.write (lit "super(") w in
      let w := writeNode superCall w in
      writeLine (Some (lit ");")) w
  | None =>
      match Constructor.thisCall constructor with
      | Some thisCall =>
          let w := Writer.write (lit "this(") w in
          let w := writeNode thisCall w in
          writeLine (Some (lit ");")) w
      | None => w
      end
  end.

(** From the free-form body to the closing brace. *)
Definition constructorClosing (constructor : Constructor.t) (w : Writer.t)
  : Writer.t :=
  let w :=
    match Constructor.body constructor with
    | Some body => writeNode body w
    | None => w
    end in
  let w := dedent w in
  writeLine (Some (lit "}")) w.

(** The record [constructor] with another [thisCall]. *)
Definition withThisCall (thisCall : option IAstNode)
  (constructor : Constructor.t) : Constructor.t :=
  Constructor.mk (Constructor.body constructor)
    (Constructor.parameters constructor) (Constructor.access constructor)
    (Constructor.javadoc constructor) (Constructor.annotations constructor)
    (Constructor.superCall constructor) thisCall
    (Constructor.throws constructor).

End Class_.

(* ------------------------------------------------------------------------- *)
(** ** Vocabulary of the properties *)

(** The header [toString] puts before the imports. *)
Definition packageDeclaration (w : Writer.t) : jsstring :=
  if skipPackageDeclaration w then []
  else lit "package " ++ Writer.packageName w ++ lit ";" ++ [nl] ++ [nl].

(** The fully-qualified names of the import block, top to bottom. *)
Definition importNames (w : Writer.t) : list jsstring :=
  JsString.sort (allImports w).

(** The lines of the import block, top to bottom. *)
Definition importLines (w : Writer.t) : list jsstring :=
  map importLine (importNames w).

(** What [toString] puts between the import block and the buffer. *)
Definition importSeparator (w : Writer.t) : jsstring :=
  match allImports w with
  | [] => []
  | _ :: _ => [nl]
  end.

(** The call [o], made on a writer whose target package is [target],
    registers the fully-qualified name [x]: it is [addImport(x)], or
    [addReference] of a type of another package whose qualified name is [x]. *)
Definition Registers (target : jsstring) (o : Op) (x : jsstring) : Prop :=
  o = OpAddImport x
  \/ exists r, o = OpAddReference r
               /\ ClassReference.packageName r <> target
               /\ ClassReference.qualified r = x.

(** [addReference] of a type of the target package. *)
Definition samePackageReference (target : jsstring) (o : Op) : bool :=
  match o with
  | OpAddReference r => JsString.eqb (ClassReference.packageName r) target
  | _ => false
  end.

(** [w'] holds the text of [w] and possibly more after it. *)
Definition Extends (w w' : Writer.t) : Prop :=
  exists s, buffer w' = buffer w ++ s.

(** Whatever the state, the text the node appends ends in a line break. *)
Definition EndsLine (node : IAstNode) : Prop :=
  forall w, exists s, buffer (writeNode node w) = buffer w ++ s ++ [nl].

(** A fresh writer for [com.example], used to exercise the statements. *)
Definition sampleWriter : Writer.t :=
  Writer.new (mkConfig (lit "com.example") None).

(** A constructor that supplies both delegation hooks. *)
Definition sampleConstructor : Constructor.t :=
  Constructor.mk
    (Some [OpWriteLine (Some (lit "this.x = x;"))])
    [Parameter_.mk (lit "x") (Some (lit "the abscissa"))
       [OpWrite (lit "int x")]]
    (lit "public") None None
    (Some [OpWrite (lit "x")])
    (Some [OpWrite (lit "x, 0")])
    (Some [ClassReference.mk (lit "IOException") (lit "java.io")]).

(** A class with a member of each kind but a nested interface. *)
Definition sampleClass : Class_.t :=
  fold_left (fun c m => Class_.add m c)
    [Class_.Method [OpWriteLine (Some (lit "abstract int norm();"))];
     Class_.NestedEnum [OpWriteLine (Some (lit "enum Axis { X, Y }"))];
     Class_.Field [OpWrite (lit "private int x;")];
     Class_.NestedClass
       (Class_.new
          (Class_.mkArgs (lit "Origin") (lit "com.example") (lit "private")
             None None (Some true) None None (Some true) None None None));
     Class_.Ctor sampleConstructor;
     Class_.Field [OpWrite (lit "private int y;")]]
    (Class_.new
       (Class_.mkArgs (lit "Point") (lit "com.example") (lit "public")
          (Some true) None None
          (Some (ClassReference.mk (lit "Shape") (lit "com.example.shapes")))
          None None None (Some (lit "A point.")) None)).

(** [addReference] or [addImport]: the calls that feed the import block. *)
Definition isRegistration (o : Op) : bool :=
  match o with
  | OpAddReference _ | OpAddImport _ => true
  | _ => false
  end.

(** [w'] is the state some sequence of writer calls leads to from [w]. *)
Definition Reaches (w w' : Writer.t) : Prop :=
  exists ops, w' = run ops w.

(** The node leaves the indentation at the level it found. *)
Definition Balanced (node : IAstNode) : Prop :=
  forall w, (0 <= indentLevel w)%Z ->
            indentLevel (writeNode node w) = indentLevel w.

Definition optional {A : Type} (o : option A) : list A :=
  match o with Some x => [x] | None => [] end.

(** The nodes a constructor record holds. *)
Definition constructorNodes (k : Constructor.t) : list IAstNode :=
  Class_.orEmpty (Constructor.annotations k)
  ++ map Parameter_.write (Constructor.parameters k)
  ++ optional (Constructor.superCall k)
  ++ optional (Constructor.thisCall k)
  ++ optional (Constructor.body k).

(** The nodes of a class, those of its constructors and of its nested
    classes included. *)
Fixpoint classNodes (c : Class_.t) : list IAstNode :=
  Class_.annotations c
  ++ Class_.fields c
  ++ flat_map constructorNodes (Class_.constructors c)
  ++ Class_.methods c
  ++ flat_map classNodes (Class_.nestedClasses c)
  ++ Class_.nestedInterfaces c
  ++ Class_.nestedEnums c.

(** The types a class names in its own clauses and in those of its nested
    classes: the supertype, the interfaces, and what the constructors throw. *)
Fixpoint classReferences (c : Class_.t) : list ClassReference.t :=
  optional (Class_.extends_ c)
  ++ Class_.implements_ c
  ++ flat_map (fun k => Class_.orEmpty (Constructor.throws k))
              (Class_.constructors c)
  ++ flat_map classReferences (Class_.nestedClasses c).

(** Between [w] and [w'] the indentation level moves by [d], when it
    starts from a level that is not negative. *)
Definition Shift (d : Z) (w w' : Writer.t) : Prop :=
  (0 <= indentLevel w)%Z -> indentLevel w' = (indentLevel w + d)%Z.

(** On a writer at indentation level [L], the step from [w] to [w'] appends
    the text [t] and moves the level by [d]. *)
Definition Emits (L d : Z) (w w' : Writer.t) (t : jsstring) : Prop :=
  indentLevel w = L ->
  buffer w' = buffer w ++ t /\ indentLevel w' = (L + d)%Z.

(** The indentation of a line at level [L]. *)
Definition margin (L : Z) : jsstring :=
  JsString.repeat (lit "    ") (Z.to_nat L).

(** The text of a JavaDoc block written at the indentation [margin]; an
    absent or empty [javadoc] gives no block. *)
Definition javadocText (margin : jsstring) (javadoc : option jsstring)
  : jsstring :=
  match javadoc with
  | Some ((_ :: _) as doc) =>
      (margin ++ lit "/**" ++ [nl])
      ++ concat (map (fun line => margin ++ (lit " * " ++ line) ++ [nl])
                     (split_nl doc))
      ++ (margin ++ lit " */" ++ [nl])
  | _ => []
  end.

(** The text of the JavaDoc block of a constructor written at the
    indentation [margin]: the lines of its own documentation, then one
    [@param] line for each parameter that carries a documentation; no block
    when there is neither. *)
Definition constructorJavadocText (margin : jsstring) (k : Constructor.t)
  : jsstring :=
  if truthy (Constructor.javadoc k)
     || existsb (fun param => truthy (Parameter_.docs param))
                (Constructor.parameters k)
  then
    (margin ++ lit "/**" ++ [nl])
    ++ match Constructor.javadoc k with
       | Some ((_ :: _) as doc) =>
           concat (map (fun line => margin ++ (lit " * " ++ line) ++ [nl])
                       (split_nl doc))
       | _ => []
       end
    ++ concat
         (map (fun param =>
                 match Parameter_.docs param with
                 | Some ((_ :: _) as docs) =>
                     margin
                     ++ (lit " * @param " ++ Parameter_.name param
                         ++ lit " " ++ docs)
                     ++ [nl]
                 | _ => []
                 end)
              (Constructor.parameters k))
    ++ (margin ++ lit " */" ++ [nl])
  else [].

(** A class named [SimpleClass] without anything else, as in the tests. *)
Definition simpleClass : Class_.t :=
  Class_.new
    (Class_.mkArgs (lit "SimpleClass") (lit "com.example") (lit "public")
       None None None None None None None None None).

(** The text of the declaration of a class, from the access modifier to the
    last interface of the [implements] clause. *)
Definition declarationText (c : Class_.t) : jsstring :=
  Class_.access c ++ lit " "
  ++ (if Class_.abstract_ c then lit "abstract " else [])
  ++ (if Class_.final_ c then lit "final " else [])
  ++ (if Class_.static_ c then lit "static " else [])
  ++ lit "class " ++ Class_.name c
  ++ match Class_.typeParameters c with
     | [] => []
     | _ :: _ => lit "<" ++ join (lit ", ") (Class_.typeParameters c)
                 ++ lit ">"
     end
  ++ match Class_.extends_ c with
     | Some e => lit " extends " ++ ClassReference.name e
     | None => []
     end
  ++ match Class_.implements_ c with
     | [] => []
     | _ :: _ => lit " implements "
                 ++ join (lit ", ")
                      (map ClassReference.name (Class_.implements_ c))
     end.



(** A class whose methods and nested enum write their text with [write]
    only, without a line break at its end. *)
Definition writeOnlyClass : Class_.t :=
  fold_left (fun c m => Class_.add m c)
    [Class_.Method [OpWrite (lit "void a();")];
     Class_.Method [OpWrite (lit "void b();")];
     Class_.NestedEnum [OpWrite (lit "enum E {}")]]
    (Class_.new
       (Class_.mkArgs (lit "K") (lit "com.example") (lit "public")
          None None None None None None None None None)).

(* ------------------------------------------------------------------------- *)
(** ** The order on strings *)

Section StringOrder.

Lemma ltb_irrefl (a : jsstring) : ltb a a = false.
Proof.
  induction a as [|x a IH]; simpl; [reflexivity|].
  now rewrite N.ltb_irrefl.
Qed.

Lemma ltb_trans (a b c : jsstring) :
  ltb a b = true -> ltb b c = true -> ltb a c = true.
Proof.
  revert b c; induction a as [|x a IH]; intros [|y b] [|z c]; simpl;
    try discriminate; auto.
  destruct (N.ltb_spec x y), (N.ltb_spec y x), (N.ltb_spec y z),
    (N.ltb_spec z y), (N.ltb_spec x z), (N.ltb_spec z x);
    try discriminate; try lia; auto.
  apply IH.
Qed.

Lemma ltb_connex (a b : jsstring) :
  ltb a b = false -> ltb b a = false -> a = b.
Proof.
  revert b; induction a as [|x a IH]; intros [|y b]; simpl;
    try discriminate; auto.
  destruct (N.ltb_spec x y), (N.ltb_spec y x); try discriminate; try lia.
  intros H1 H2. f_equal; [lia | now apply IH].
Qed.

Lemma lt_irrefl (a : jsstring) : ~ JsString.lt a a.
Proof. unfold JsString.lt. now rewrite ltb_irrefl. Qed.

Lemma lt_trans : Relations_1.Transitive JsString.lt.
Proof. intros a b c. apply ltb_trans. Qed.

End StringOrder.

(* ------------------------------------------------------------------------- *)
(** ** Sorting *)

Section Sorting.

Lemma insert_In (x y : jsstring) (l : list jsstring) :
  In y (insert x l) <-> y = x \/ In y l.
Proof.
  induction l as [|z l IH]; simpl.
  - intuition.
  - destruct (ltb z x); simpl; rewrite ?IH; intuition.
Qed.

Lemma sort_In (y : jsstring) (l : list jsstring) :
  In y (JsString.sort l) <-> In y l.
Proof.
  induction l as [|x l IH]; simpl; [tauto|].
  rewrite insert_In, IH. intuition.
Qed.

Lemma insert_length (x : jsstring) (l : list jsstring) :
  length (insert x l) = S (length l).
Proof.
  induction l as [|z l IH]; simpl; [reflexivity|].
  destruct (ltb z x); simpl; auto.
Qed.

Lemma sort_length (l : list jsstring) : length (JsString.sort l) = length l.
Proof.
  induction l as [|x l IH]; simpl; [reflexivity|].
  now rewrite insert_length, IH.
Qed.

Lemma insert_HdRel (a x : jsstring) (l : list jsstring) :
  JsString.lt a x -> HdRel JsString.lt a l ->
  HdRel JsString.lt a (insert x l).
Proof.
  intros Hax Hl. destruct l as [|z l]; simpl.
  - now constructor.
  - destruct (ltb z x); constructor; auto.
    now inversion Hl.
Qed.

Lemma insert_Sorted (x : jsstring) (l : list jsstring) :
  Sorted JsString.lt l -> ~ In x l -> Sorted JsString.lt (insert x l).
Proof.
  induction l as [|z l IH]; simpl; intros Hs Hx.
  - repeat constructor.
  - inversion Hs as [|? ? Hs' Hhd]; subst.
    destruct (ltb z x) eqn:Hzx.
    + constructor; [apply IH; tauto|]. now apply insert_HdRel.
    + constructor; [assumption|]. constructor.
      unfold JsString.lt. destruct (ltb x z) eqn:Hxz; [reflexivity|].
      exfalso. apply Hx. left. now apply ltb_connex.
Qed.

Lemma sort_Sorted (l : list jsstring) :
  NoDup l -> Sorted JsString.lt (JsString.sort l).
Proof.
  induction 1 as [|x l Hx Hnd IH]; simpl.
  - constructor.
  - apply insert_Sorted; [assumption|]. now rewrite sort_In.
Qed.

Lemma sort_StronglySorted (l : list jsstring) :
  NoDup l -> StronglySorted JsString.lt (JsString.sort l).
Proof.
  intros Hnd. apply Sorted_StronglySorted; [exact lt_trans|].
  now apply sort_Sorted.
Qed.

Lemma StronglySorted_NoDup (l : list jsstring) :
  StronglySorted JsString.lt l -> NoDup l.
Proof.
  induction 1 as [|x l Hs IH Hall]; constructor; auto.
  intros Hin. rewrite Forall_forall in Hall.
  exact (lt_irrefl (Hall _ Hin)).
Qed.

(** Two strictly ascending lists with the same elements are the same list. *)
Lemma StronglySorted_unique (l1 l2 : list jsstring) :
  StronglySorted JsString.lt l1 -> StronglySorted JsString.lt l2 ->
  (forall x, In x l1 <-> In x l2) -> l1 = l2.
Proof.
  intros H1; revert l2.
  induction H1 as [|x l1 Hs1 IH Hall1]; intros l2 H2 Heq.
  - destruct l2 as [|y l2]; [reflexivity|].
    exfalso. apply (proj2 (Heq y)). now left.
  - destruct H2 as [|y l2 Hs2 Hall2].
    + exfalso. apply (proj1 (Heq x)). now left.
    + rewrite Forall_forall in Hall1, Hall2.
      assert (x = y) as ->.
      { destruct (proj1 (Heq x) (or_introl eq_refl)) as [E|Hx]; [now symmetry|].
        destruct (proj2 (Heq y) (or_introl eq_refl)) as [E|Hy]; [assumption|].
        exfalso. apply (@lt_irrefl x).
        apply (@ltb_trans x y x); [apply Hall1|apply Hall2]; assumption. }
      f_equal. apply IH; [assumption|].
      intros z; split; intros Hz.
      * destruct (proj1 (Heq z) (or_intror Hz)) as [E|Hz']; [|assumption].
        subst z. exfalso. exact (lt_irrefl (Hall1 _ Hz)).
      * destruct (proj2 (Heq z) (or_intror Hz)) as [E|Hz']; [|assumption].
        subst z. exfalso. exact (lt_irrefl (Hall2 _ Hz)).
Qed.

End Sorting.

(* ------------------------------------------------------------------------- *)
(** ** Sets of strings *)

Section Sets.

Lemma add_In (x y : jsstring) (s : JsSet.t) :
  In y (JsSet.add x s) <-> y = x \/ In y s.
Proof.
  unfold JsSet.add. destruct (in_dec JsString.eq_dec x s) as [Hin|Hout].
  - split; [now right|]. intros [->|H]; assumption.
  - rewrite in_app_iff; simpl. intuition.
Qed.

Lemma add_NoDup (x : jsstring) (s : JsSet.t) :
  NoDup s -> NoDup (JsSet.add x s).
Proof.
  intros Hnd. unfold JsSet.add.
  destruct (in_dec JsString.eq_dec x s) as [Hin|Hout]; [assumption|].
  apply NoDup_app; repeat split; auto.
  - repeat constructor. simpl; tauto.
  - intros a Ha [<-|[]]. contradiction.
Qed.

Lemma fold_add_In (xs : list jsstring) (s : JsSet.t) (y : jsstring) :
  In y (fold_left (fun s x => JsSet.add x s) xs s) <-> In y s \/ In y xs.
Proof.
  revert s; induction xs as [|x xs IH]; intros s; simpl; [tauto|].
  rewrite IH, add_In. intuition.
Qed.

Lemma fold_add_NoDup (xs : list jsstring) (s : JsSet.t) :
  NoDup s -> NoDup (fold_left (fun s x => JsSet.add x s) xs s).
Proof.
  revert s; induction xs as [|x xs IH]; intros s Hnd; simpl; [assumption|].
  apply IH. now apply add_NoDup.
Qed.

Lemma of_list_In (xs : list jsstring) (y : jsstring) :
  In y (JsSet.of_list xs) <-> In y xs.
Proof.
  unfold JsSet.of_list. rewrite fold_add_In. simpl. tauto.
Qed.

Lemma of_list_NoDup (xs : list jsstring) : NoDup (JsSet.of_list xs).
Proof. apply fold_add_NoDup. constructor. Qed.

End Sets.

(* ------------------------------------------------------------------------- *)
(** ** The import block *)

Section ImportBlock.

Lemma allImports_In (w : Writer.t) (x : jsstring) :
  In x (allImports w) <-> In x (imports w) \/ In x (references w).
Proof.
  unfold allImports, JsSet.elements. now rewrite of_list_In, in_app_iff.
Qed.

Lemma allImports_NoDup (w : Writer.t) : NoDup (allImports w).
Proof. apply of_list_NoDup. Qed.

Lemma allImports_nil (w : Writer.t) :
  allImports w = [] <-> imports w = [] /\ references w = [].
Proof.
  split.
  - intros H.
    assert (forall x, ~ In x (imports w) /\ ~ In x (references w)) as Hno.
    { intros x. pose proof (allImports_In w x) as Hx. rewrite H in Hx.
      simpl in Hx. tauto. }
    split.
    + destruct (imports w) as [|a l]; [reflexivity|].
      exfalso. apply (proj1 (Hno a)). now left.
    + destruct (references w) as [|a l]; [reflexivity|].
      exfalso. apply (proj2 (Hno a)). now left.
  - intros [H1 H2]. unfold allImports. now rewrite H1, H2.
Qed.

Lemma importNames_In (w : Writer.t) (x : jsstring) :
  In x (importNames w) <-> In x (imports w) \/ In x (references w).
Proof. unfold importNames. now rewrite sort_In, allImports_In. Qed.

Lemma importNames_sorted (w : Writer.t) :
  StronglySorted JsString.lt (importNames w).
Proof. apply sort_StronglySorted, allImports_NoDup. Qed.

Lemma importNames_NoDup (w : Writer.t) : NoDup (importNames w).
Proof. apply StronglySorted_NoDup, importNames_sorted. Qed.

Lemma importLine_inj (x y : jsstring) : importLine x = importLine y -> x = y.
Proof.
  unfold importLine. intros H.
  apply app_inv_head in H. now apply app_inv_tail in H.
Qed.

(** The loop of [toString] appends the lines one after the other. *)
Lemma fold_importLine (names : list jsstring) (result : jsstring) :
  fold_left (fun result importName => result ++ importLine importName)
            names result
  = result ++ concat (map importLine names).
Proof.
  revert result; induction names as [|x names IH]; intros result;
    cbn [fold_left map concat].
  - now rewrite app_nil_r.
  - now rewrite IH, app_assoc.
Qed.

(** The document is the package header, the import lines, the separator and
    the buffer, in this order. *)
Lemma toString_layout (w : Writer.t) :
  toString w
  = packageDeclaration w ++ concat (importLines w) ++ importSeparator w
    ++ buffer w.
Proof.
  unfold toString, packageDeclaration, importLines, importNames,
    importSeparator.
  rewrite fold_importLine, sort_length.
  destruct (skipPackageDeclaration w); cbn [negb];
    destruct (allImports w) as [|a l]; cbn [length Nat.ltb Nat.leb];
    rewrite <- ?app_assoc; reflexivity.
Qed.

End ImportBlock.

(* ------------------------------------------------------------------------- *)
(** ** Sequences of writer calls *)

Section Calls.

Lemma eqb_eq (a b : jsstring) : JsString.eqb a b = true <-> a = b.
Proof.
  unfold JsString.eqb. destruct (JsString.eq_dec a b); split; congruence.
Qed.

Ltac unfold_calls :=
  unfold indent, dedent, Writer.write, writeLine, newLine,
    writeNewLineIfLastLineNot, addReference, addImport,
    set_indentLevel, set_buffer, set_imports, set_references in *.

Ltac split_tests :=
  repeat match goal with
         | |- context [if ?b then _ else _] => destruct b eqn:?
         | |- context [match ?o with Some _ => _ | None => _ end] =>
             destruct o eqn:?
         end.

Lemma step_packageName (w : Writer.t) (o : Op) :
  Writer.packageName (step w o) = Writer.packageName w.
Proof. destruct o; simpl; unfold_calls; split_tests; reflexivity. Qed.

Lemma run_packageName (ops : list Op) (w : Writer.t) :
  Writer.packageName (run ops w) = Writer.packageName w.
Proof.
  revert w; induction ops as [|o ops IH]; intros w; simpl; [reflexivity|].
  unfold run in IH. now rewrite IH, step_packageName.
Qed.

Lemma run_app (ops ops' : list Op) (w : Writer.t) :
  run (ops ++ ops') w = run ops' (run ops w).
Proof. unfold run. apply fold_left_app. Qed.

(** A reference to a type of the target package changes nothing. *)
Lemma addReference_same_package (r : ClassReference.t) (w : Writer.t) :
  ClassReference.packageName r = Writer.packageName w -> addReference r w = w.
Proof.
  intros H. unfold addReference.
  now rewrite (proj2 (eqb_eq _ _) H).
Qed.

Lemma step_names (w : Writer.t) (o : Op) (x : jsstring) :
  In x (imports (step w o)) \/ In x (references (step w o))
  <-> (In x (imports w) \/ In x (references w))
      \/ Registers (Writer.packageName w) o x.
Proof.
  unfold Registers.
  assert (forall w', imports w' = imports w -> references w' = references w ->
          (forall y, o <> OpAddImport y) -> (forall r, o <> OpAddReference r) ->
          (In x (imports w') \/ In x (references w')
           <-> (In x (imports w) \/ In x (references w))
               \/ (o = OpAddImport x
                   \/ exists r, o = OpAddReference r
                        /\ ClassReference.packageName r <> Writer.packageName w
                        /\ ClassReference.qualified r = x))) as Hsame.
  { intros w' -> -> Hi Hr. split; [tauto|].
    intros [H|[H|(r & H & _)]]; [assumption| |]; exfalso.
    - exact (Hi _ H).
    - exact (Hr _ H). }
  destruct o; simpl;
    try (apply Hsame; try discriminate; unfold_calls; split_tests;
         reflexivity).
  - (* addReference *)
    unfold addReference.
    destruct (JsString.eqb (ClassReference.packageName reference)
                (Writer.packageName w)) eqn:E.
    + apply eqb_eq in E. split; [tauto|].
      intros [H|[H|(r & H & Hne & _)]]; [assumption|discriminate|].
      injection H as <-. contradiction.
    + assert (ClassReference.packageName reference <> Writer.packageName w)
        as Hne.
      { intros H. apply eqb_eq in H. congruence. }
      simpl. rewrite add_In. split.
      * intros [H|[->|H]]; [tauto| |tauto].
        right; right. exists reference. auto.
      * intros [[H|H]|[H|(r & H & _ & Hq)]]; [tauto|tauto|discriminate|].
        injection H as <-. right; left. now symmetry.
  - (* addImport *)
    unfold addImport. simpl. rewrite add_In. split.
    + intros [[->|H]|H]; tauto.
    + intros [[H|H]|[H|(r & H & _)]]; [tauto|tauto| |discriminate].
      injection H as ->. tauto.
Qed.

Lemma run_names (ops : list Op) (w : Writer.t) (x : jsstring) :
  In x (importNames (run ops w))
  <-> In x (importNames w)
      \/ exists o, In o ops /\ Registers (Writer.packageName w) o x.
Proof.
  rewrite !importNames_In.
  revert w; induction ops as [|o ops IH]; intros w.
  - simpl. split; [tauto|]. intros [H|(o & [] & _)]. assumption.
  - change (run (o :: ops) w) with (run ops (step w o)).
    rewrite IH, step_packageName, step_names. split.
    + intros [[H|H]|(o' & Hin & H)]; [tauto| |].
      * right. exists o. simpl; auto.
      * right. exists o'. simpl; auto.
    + intros [H|(o' & [<-|Hin] & H)]; [tauto|tauto|].
      right. exists o'. auto.
Qed.

Lemma map_NoDup_inj (A B : Type) (f : A -> B) (l : list A) :
  (forall a b, f a = f b -> a = b) -> NoDup l -> NoDup (map f l).
Proof.
  intros Hinj. induction 1 as [|a l Ha Hnd IH]; simpl; constructor; auto.
  rewrite in_map_iff. intros (b & Hb & Hin).
  apply Hinj in Hb. now subst.
Qed.

Lemma importLines_NoDup (w : Writer.t) : NoDup (importLines w).
Proof.
  apply map_NoDup_inj; [exact importLine_inj | apply importNames_NoDup].
Qed.

Lemma importLines_In (w : Writer.t) (line : jsstring) :
  In line (importLines w)
  <-> exists x, line = importLine x /\ In x (importNames w).
Proof.
  unfold importLines. rewrite in_map_iff.
  split; intros (x & H1 & H2); exists x; auto.
Qed.

(** Dropping the references to types of the target package from a sequence of
    calls does not change the state it leads to. *)
Lemma run_without_same_package (ops : list Op) (w : Writer.t) :
  run ops w
  = run (filter (fun o => negb (samePackageReference (Writer.packageName w) o))
                ops) w.
Proof.
  revert w; induction ops as [|o ops IH]; intros w; [reflexivity|].
  change (run (o :: ops) w) with (run ops (step w o)).
  cbn [filter].
  destruct (samePackageReference (Writer.packageName w) o) eqn:E; cbn [negb].
  - destruct o; try discriminate. simpl in E. apply eqb_eq in E.
    simpl step. rewrite (addReference_same_package _ _ E). apply IH.
  - change (run (o :: ?l) w) with (run l (step w o)).
    rewrite IH, step_packageName. reflexivity.
Qed.

End Calls.

(* ------------------------------------------------------------------------- *)
(** ** The rendered document *)

(** C1 (same-package suppression).  Whatever calls are made on a writer, the
    calls of [addReference] with a type of the writer's own package can be
    left out without changing the rendered document; and after any sequence
    of [addReference] calls on a fresh writer, every line of the import block
    is the line of a registered reference whose package is not the target
    package.  A reference of the target package contributes no line, however
    often it is registered. *)
Theorem same_package_reference_not_imported :
  forall (config : WriterConfig) (refs : list ClassReference.t)
         (ops : list Op) (w : Writer.t),
    (forall line,
        In line (importLines (run (map OpAddReference refs)
                                  (Writer.new config))) ->
        exists r, In r refs
                  /\ ClassReference.packageName r <> cfg_packageName config
                  /\ line = importLine (ClassReference.qualified r))
    /\ toString (run ops w)
       = toString
           (run (filter (fun o => negb (samePackageReference
                                          (Writer.packageName w) o)) ops) w)
    /\ (forall r, ClassReference.packageName r = Writer.packageName w ->
                  addReference r w = w).
Proof.
  intros config refs ops w. split; [|split].
  - intros line Hline.
    apply importLines_In in Hline. destruct Hline as (x & -> & Hx).
    apply run_names in Hx. destruct Hx as [Hx|(o & Hin & Hreg)].
    + apply importNames_In in Hx. simpl in Hx. tauto.
    + apply in_map_iff in Hin. destruct Hin as (r & <- & Hr).
      destruct Hreg as [Hreg|(r' & Heq & Hne & Hq)]; [discriminate|].
      injection Heq as <-. exists r. simpl in Hne. subst x. auto.
  - now rewrite <- run_without_same_package.
  - intros r. apply addReference_same_package.
Qed.

(** C2, as amended (deduplication).  If, among the calls made on a fresh
    writer, at least one registers the fully-qualified name [x] -- a call of
    [addImport] with [x], or a call of [addReference] with a type whose
    qualified name is [x] and whose package is not the target package -- then
    the import block has exactly one line for [x], however many calls
    register it and whatever the other calls are. *)
Theorem registered_name_imported_once
  (config : WriterConfig) (ops : list Op) (x : jsstring) :
  (exists o, In o ops /\ Registers (cfg_packageName config) o x) ->
  count_occ JsString.eq_dec (importLines (run ops (Writer.new config)))
            (importLine x) = 1%nat.
Proof.
  intros Hreg.
  apply NoDup_count_occ'; [apply importLines_NoDup|].
  apply importLines_In. exists x. split; [reflexivity|].
  apply run_names. now right.
Qed.

(** The scenario of the test suite: [(ArrayList, java.util)] registered twice
    as a reference and twice as an explicit import. *)
Lemma registered_name_imported_once_witness :
  count_occ JsString.eq_dec
    (importLines
       (run [OpAddReference
               (ClassReference.mk (lit "ArrayList") (lit "java.util"));
             OpAddReference
               (ClassReference.mk (lit "ArrayList") (lit "java.util"));
             OpAddImport (lit "java.util.ArrayList");
             OpAddImport (lit "java.util.ArrayList")]
            (Writer.new (mkConfig (lit "com.example") None))))
    (importLine (lit "java.util.ArrayList")) = 1%nat.
Proof.
  apply (@registered_name_imported_once
           (mkConfig (lit "com.example") None)).
  exists (OpAddImport (lit "java.util.ArrayList")).
  split; [simpl; tauto | left; reflexivity].
Defined.

(** C2 as it is stated fails for a reference of the target package: one
    call of [addReference] with [(Foo, com.example)] on a writer for
    [com.example] leaves the import block without any line. *)
Lemma same_package_reference_yields_no_line :
  count_occ JsString.eq_dec
    (importLines
       (run [OpAddReference
               (ClassReference.mk (lit "Foo") (lit "com.example"))]
            (Writer.new (mkConfig (lit "com.example") None))))
    (importLine (lit "com.example.Foo")) = 0%nat
  /\ toString
       (run [OpAddReference
               (ClassReference.mk (lit "Foo") (lit "com.example"))]
            (Writer.new (mkConfig (lit "com.example") None)))
     = lit "package com.example;" ++ [nl; nl].
Proof. split; vm_compute; reflexivity. Qed.

(** C3 (sort order).  The names of the import lines of the document are in
    strictly ascending order, and two sequences of calls that differ only in
    their order yield the same import lines. *)
Theorem import_lines_sorted :
  forall (w : Writer.t) (ops ops' : list Op),
    toString w
    = packageDeclaration w ++ concat (map importLine (importNames w))
      ++ importSeparator w ++ buffer w
    /\ StronglySorted JsString.lt (importNames w)
    /\ (Permutation ops ops' ->
        importNames (run ops w) = importNames (run ops' w)).
Proof.
  intros w ops ops'. split; [apply toString_layout|].
  split; [apply importNames_sorted|].
  intros Hperm.
  apply StronglySorted_unique; try apply importNames_sorted.
  intros x. rewrite !run_names.
  split; intros [H|(o & Hin & Hreg)]; auto; right; exists o; split; auto.
  - now apply (Permutation_in _ Hperm).
  - now apply (Permutation_in _ (Permutation_sym Hperm)).
Qed.

(** C4 (blank line after the imports).  Between the import block and the
    buffer the document has one line break when the merged import set is not
    empty and nothing when it is empty; the set is empty exactly when both
    registries are. *)
Theorem blank_line_after_imports :
  forall w : Writer.t,
    toString w
    = packageDeclaration w ++ concat (importLines w) ++ importSeparator w
      ++ buffer w
    /\ (importSeparator w = [nl]
        <-> imports w <> [] \/ references w <> [])
    /\ (importSeparator w = []
        <-> imports w = [] /\ references w = [])
    /\ (importLines w = [] <-> imports w = [] /\ references w = []).
Proof.
  intros w. split; [apply toString_layout|].
  pose proof (allImports_nil w) as Hnil.
  assert (importLines w = [] <-> allImports w = []) as Hlines.
  { unfold importLines, importNames. split; intros H.
    - apply map_eq_nil in H. apply length_zero_iff_nil.
      rewrite <- sort_length, H. reflexivity.
    - now rewrite H. }
  assert (imports w = [] /\ references w = []
          \/ (imports w <> [] \/ references w <> [])) as Hcase.
  { destruct (imports w); [|right; left; discriminate].
    destruct (references w); [left; tauto|right; right; discriminate]. }
  unfold importSeparator.
  destruct (allImports w) as [|a l] eqn:E.
  - assert (imports w = [] /\ references w = []) as Hboth
        by (now apply Hnil).
    split; [|split].
    + split; [discriminate|]. destruct Hboth as [-> ->].
      intros [H|H]; now contradiction H.
    + tauto.
    + rewrite Hlines. tauto.
  - assert (~ (imports w = [] /\ references w = [])) as Hne.
    { intros H. apply Hnil in H. discriminate. }
    split; [|split].
    + split; [tauto|reflexivity].
    + split; [discriminate|tauto].
    + rewrite Hlines. tauto.
Qed.

(** C5, as amended.  When the package declaration is emitted, its line is
    followed by a blank line in every document, whether or not an import line
    or body text comes after it. *)
Theorem blank_line_after_package (w : Writer.t) :
  skipPackageDeclaration w = false ->
  toString w
  = (lit "package " ++ Writer.packageName w ++ lit ";" ++ [nl]) ++ [nl]
    ++ concat (importLines w) ++ importSeparator w ++ buffer w.
Proof.
  intros Hskip. rewrite toString_layout. unfold packageDeclaration.
  rewrite Hskip. now rewrite <- !app_assoc.
Qed.

Lemma blank_line_after_package_witness :
  toString sampleWriter
  = (lit "package " ++ Writer.packageName sampleWriter ++ lit ";" ++ [nl])
    ++ [nl] ++ concat (importLines sampleWriter)
    ++ importSeparator sampleWriter ++ buffer sampleWriter.
Proof. apply (@blank_line_after_package sampleWriter). reflexivity. Defined.

(** C5 as it is stated fails on a fresh writer: no import line and no body
    text follow the package line, and the blank line is there. *)
Lemma blank_line_after_package_alone :
  skipPackageDeclaration sampleWriter = false
  /\ importLines sampleWriter = []
  /\ buffer sampleWriter = []
  /\ toString sampleWriter = (lit "package com.example;" ++ [nl]) ++ [nl].
Proof. repeat split. Qed.

(** [indent] and [dedent] leave the document as it is. *)
Lemma toString_indentation_only (ops : list Op) (w : Writer.t) :
  Forall (fun o => o = OpIndent \/ o = OpDedent) ops ->
  toString (run ops w) = toString w.
Proof.
  intros Hops; revert w.
  induction Hops as [|o ops Ho _ IH]; intros w; [reflexivity|].
  change (run (o :: ops) w) with (run ops (step w o)). rewrite IH.
  destruct Ho as [-> | ->]; simpl step; [reflexivity|].
  unfold dedent. now destruct (indentLevel w >? 0)%Z.
Qed.

(** C6.  A fresh writer for [com.example], with the suppression flag absent
    or false, renders exactly the package line and a blank line; so it does
    after calls of [indent] and [dedent], which write nothing and register
    nothing. *)
Theorem fresh_writer_document :
  toString (Writer.new (mkConfig (lit "com.example") None))
  = lit "package com.example;" ++ [nl; nl]
  /\ toString (Writer.new (mkConfig (lit "com.example") (Some false)))
     = lit "package com.example;" ++ [nl; nl]
  /\ (forall ops,
         Forall (fun o => o = OpIndent \/ o = OpDedent) ops ->
         toString (run ops (Writer.new (mkConfig (lit "com.example") None)))
         = lit "package com.example;" ++ [nl; nl]).
Proof.
  split; [reflexivity|]. split; [reflexivity|].
  intros ops Hops. now rewrite toString_indentation_only.
Qed.

(* ------------------------------------------------------------------------- *)
(** ** Indentation and the trailing line break *)

Lemma step_indentLevel (w : Writer.t) (o : Op) :
  (0 <= indentLevel w)%Z -> (0 <= indentLevel (step w o))%Z.
Proof.
  intros H. destruct o; simpl;
    unfold indent, dedent, Writer.write, writeLine, newLine,
      writeNewLineIfLastLineNot, addReference, addImport;
    repeat match goal with
           | |- context [if ?b then _ else _] => destruct b eqn:?
           | |- context [match ?o with Some _ => _ | None => _ end] =>
               destruct o eqn:?
           end; simpl; try assumption; lia.
Qed.

Lemma run_indentLevel (ops : list Op) (w : Writer.t) :
  (0 <= indentLevel w)%Z -> (0 <= indentLevel (run ops w))%Z.
Proof.
  revert w; induction ops as [|o ops IH]; intros w H; [assumption|].
  change (run (o :: ops) w) with (run ops (step w o)).
  now apply IH, step_indentLevel.
Qed.

(** C7 (indentation floor).  After any sequence of calls on a fresh writer,
    [indent] and [dedent] among them, [indentLevel] is not negative; and
    [dedent] at level zero returns the writer as it was. *)
Theorem indentLevel_nonneg :
  forall (config : WriterConfig) (ops : list Op) (w : Writer.t),
    (0 <= indentLevel (run ops (Writer.new config)))%Z
    /\ (indentLevel w = 0%Z -> dedent w = w)
    /\ (indentLevel w = 0%Z -> indentLevel (dedent w) = 0%Z).
Proof.
  intros config ops w. split; [|split].
  - apply run_indentLevel. simpl. lia.
  - intros H. unfold dedent. now rewrite H.
  - intros H. unfold dedent. now rewrite H.
Qed.

Lemma lastUnit_snoc (p : jsstring) (c : JsString.unit) :
  lastUnit (p ++ [c]) = Some c.
Proof.
  unfold lastUnit. destruct (p ++ [c]) as [|a l] eqn:E.
  - now destruct p.
  - rewrite <- E, length_app. simpl.
    rewrite nth_error_app2 by lia.
    replace (length p + 1 - 1 - length p)%nat with 0%nat by lia.
    reflexivity.
Qed.

(** The three cases of the guard, on the shape of the buffer. *)
Lemma writeNewLineIfLastLineNot_cases (w : Writer.t) :
  (buffer w = [] /\ writeNewLineIfLastLineNot w = w)
  \/ (exists p, buffer w = p ++ [nl] /\ writeNewLineIfLastLineNot w = w)
  \/ (exists p c, buffer w = p ++ [c] /\ c <> nl
                  /\ writeNewLineIfLastLineNot w = Writer.write [nl] w).
Proof.
  unfold writeNewLineIfLastLineNot.
  destruct (buffer w) as [|a l] eqn:E; [left; auto|].
  right.
  destruct (@exists_last _ (a :: l)) as (p & c & Hp); [discriminate|].
  rewrite Hp, lastUnit_snoc, length_app. simpl length.
  replace (0 <? length p + 1)%nat with true
    by (symmetry; apply Nat.ltb_lt; lia).
  destruct (N.eqb_spec c nl) as [->|Hc]; simpl.
  - left. exists p. auto.
  - right. exists p, c. repeat split; auto.
    unfold Writer.write. now rewrite E, Hp.
Qed.

(** C8 (trailing line break).  The guard is idempotent; it appends one line
    break when the buffer is not empty and does not end in a line break, and
    returns the writer as it was when the buffer is empty or ends in a line
    break. *)
Theorem writeNewLineIfLastLineNot_idempotent :
  forall w : Writer.t,
    writeNewLineIfLastLineNot (writeNewLineIfLastLineNot w)
    = writeNewLineIfLastLineNot w
    /\ (buffer w <> [] /\ (forall p, buffer w <> p ++ [nl]) ->
        writeNewLineIfLastLineNot w = Writer.write [nl] w)
    /\ (buffer w = [] \/ (exists p, buffer w = p ++ [nl]) ->
        writeNewLineIfLastLineNot w = w)
    /\ (buffer w = [] -> writeNewLineIfLastLineNot w = w).
Proof.
  intros w.
  destruct (writeNewLineIfLastLineNot_cases w)
    as [[Hb Hw]|[(p & Hb & Hw)|(p & c & Hb & Hc & Hw)]].
  - rewrite Hw, Hw. split; [reflexivity|]. split; [|split]; auto.
    intros [H _]. contradiction.
  - rewrite Hw, Hw. split; [reflexivity|]. split; [|split]; auto.
    intros [_ H]. now contradiction (H p).
  - rewrite Hw. split; [|split; [|split]].
    + destruct (writeNewLineIfLastLineNot_cases (Writer.write [nl] w))
        as [[Hb' _]|[(p' & _ & Hw')|(p' & c' & Hb' & Hc' & _)]].
      * simpl in Hb'. now destruct (buffer w).
      * exact Hw'.
      * simpl in Hb'. apply app_inj_tail in Hb'. destruct Hb' as [_ Heq].
        now contradiction Hc'.
    + reflexivity.
    + intros [H|(p' & H)].
      * rewrite Hb in H. now destruct p.
      * rewrite Hb in H. apply app_inj_tail in H. destruct H as [_ ->].
        now contradiction Hc.
    + intros H. rewrite Hb in H. now destruct p.
Qed.

(* ------------------------------------------------------------------------- *)
(** ** The buffer only grows *)

Lemma Extends_refl (w : Writer.t) : Extends w w.
Proof. exists []. now rewrite app_nil_r. Qed.

Lemma Extends_trans (w1 w2 w3 : Writer.t) :
  Extends w1 w2 -> Extends w2 w3 -> Extends w1 w3.
Proof.
  intros [s1 H1] [s2 H2]. exists (s1 ++ s2). now rewrite H2, H1, app_assoc.
Qed.

Lemma Extends_step (w : Writer.t) (o : Op) : Extends w (step w o).
Proof.
  unfold Extends.
  destruct o; simpl;
    unfold indent, dedent, Writer.write, writeLine, newLine,
      writeNewLineIfLastLineNot, addReference, addImport;
    repeat match goal with
           | |- context [if ?b then _ else _] => destruct b eqn:?
           | |- context [match ?o with Some _ => _ | None => _ end] =>
               destruct o eqn:?
           end; simpl; rewrite <- ?app_assoc;
    first [eexists; reflexivity | exists []; symmetry; apply app_nil_r].
Qed.

Lemma Extends_writeNode (node : IAstNode) (w : Writer.t) :
  Extends w (writeNode node w).
Proof.
  revert w; induction node as [|o ops IH]; intros w; [apply Extends_refl|].
  change (writeNode (o :: ops) w) with (writeNode ops (step w o)).
  eapply Extends_trans; [apply Extends_step | apply IH].
Qed.

Lemma Extends_let (w0 e : Writer.t) (b : Writer.t -> Writer.t) :
  Extends w0 e -> (forall x, Extends x (b x)) ->
  Extends w0 (let x := e in b x).
Proof. intros H1 H2. cbv zeta. eapply Extends_trans; eauto. Qed.

Lemma Extends_forEach (A : Type) (body : A -> Writer.t -> Writer.t)
  (xs : list A) (w : Writer.t) :
  (forall x w', In x xs -> Extends w' (body x w')) ->
  Extends w (forEach body xs w).
Proof.
  unfold forEach. revert w; induction xs as [|x xs IH]; intros w H; simpl.
  - apply Extends_refl.
  - eapply Extends_trans; [apply H; now left|].
    apply IH. intros y w' Hy. apply H. now right.
Qed.

Lemma Extends_forEachIndexed (A : Type)
  (body : A -> Z -> Writer.t -> Writer.t) (xs : list A) (w : Writer.t) :
  (forall x i w', Extends w' (body x i w')) ->
  Extends w (forEachIndexed body xs w).
Proof.
  intros H. unfold forEachIndexed.
  generalize 0%Z as i. revert w.
  induction xs as [|x xs IH]; intros w i; simpl.
  - apply Extends_refl.
  - eapply Extends_trans; [apply (H x i w)|]. apply IH.
Qed.

(** A goal [Extends w e] where [e] is built from [w] by the writer's
    methods, [let], tests and loops. *)
Ltac extends :=
  lazymatch goal with
  | |- Extends ?w ?w => apply Extends_refl
  | |- Extends ?w0 (let x := ?e in @?b x) =>
      apply (@Extends_let w0 e b); [extends | intro; cbv beta; extends]
  | |- Extends _ (match ?o with _ => _ end) => destruct o; extends
  | |- Extends ?w (forEach _ _ ?x) =>
      apply (@Extends_trans w x);
      [extends | apply Extends_forEach; intros; extends]
  | |- Extends ?w (forEachIndexed _ _ ?x) =>
      apply (@Extends_trans w x);
      [extends | apply Extends_forEachIndexed; intros; extends]
  | |- Extends ?w (writeNode ?n ?x) =>
      apply (@Extends_trans w x); [extends | apply Extends_writeNode]
  | |- Extends ?w (Writer.write ?t ?x) =>
      apply (@Extends_trans w x);
      [extends | apply (Extends_step x (OpWrite t))]
  | |- Extends ?w (writeLine ?t ?x) =>
      apply (@Extends_trans w x);
      [extends | apply (Extends_step x (OpWriteLine t))]
  | |- Extends ?w (newLine ?x) =>
      apply (@Extends_trans w x); [extends | apply (Extends_step x OpNewLine)]
  | |- Extends ?w (indent ?x) =>
      apply (@Extends_trans w x); [extends | apply (Extends_step x OpIndent)]
  | |- Extends ?w (dedent ?x) =>
      apply (@Extends_trans w x); [extends | apply (Extends_step x OpDedent)]
  | |- Extends ?w (addReference ?r ?x) =>
      apply (@Extends_trans w x);
      [extends | apply (Extends_step x (OpAddReference r))]
  | |- Extends ?w (addImport ?s ?x) =>
      apply (@Extends_trans w x);
      [extends | apply (Extends_step x (OpAddImport s))]
  | |- _ => eauto
  end.

Lemma Extends_constructorOpening (this_name : jsstring)
  (k : Constructor.t) (w : Writer.t) :
  Extends w (Class_.constructorOpening this_name k w).
Proof. unfold Class_.constructorOpening. extends. Qed.

Lemma Extends_constructorDelegation (k : Constructor.t) (w : Writer.t) :
  Extends w (Class_.constructorDelegation k w).
Proof. unfold Class_.constructorDelegation. extends. Qed.

Lemma Extends_writeDeclaration (c : Class_.t) (w : Writer.t) :
  Extends w (Class_.writeDeclaration c w).
Proof. unfold Class_.writeDeclaration. extends. Qed.

(* ------------------------------------------------------------------------- *)
(** ** The class and its constructors *)

(** Induction on a class with the hypothesis on its nested classes. *)
Lemma class_nested_ind (P : Class_.t -> Prop) :
  (forall c, Forall P (Class_.nestedClasses c) -> P c) -> forall c, P c.
Proof.
  intros H. fix IH 1. intros c. apply H.
  destruct c as [? ? ? ? ? ? ? ? ? ? ? ? ? ? ? ? nested ? ?].
  cbn [Class_.nestedClasses].
  induction nested as [|n nested IHn]; constructor; [apply IH | exact IHn].
Qed.

Lemma writeConstructor_phases (this_name : jsstring) (k : Constructor.t)
  (w : Writer.t) :
  Class_.writeConstructor this_name k w
  = Class_.constructorClosing k
      (Class_.constructorDelegation k
         (Class_.constructorOpening this_name k w)).
Proof. reflexivity. Qed.

Lemma fold_left_map (A B C : Type) (f : A -> C -> A) (g : B -> C)
  (l : list B) (a : A) :
  fold_left f (map g l) a = fold_left (fun a x => f a (g x)) l a.
Proof. revert a; induction l as [|x l IH]; intros a; simpl; auto. Qed.

(** [write] emits the declaration, then the members one by one in the order
    of [members], then the closing brace. *)
Lemma write_by_members (c : Class_.t) (w : Writer.t) :
  Class_.write c w
  = writeLine (Some (lit "}"))
      (dedent
         (fold_left (fun w m => Class_.writeMember (Class_.name c) m w)
                    (Class_.members c) (Class_.writeDeclaration c w))).
Proof.
  unfold Class_.members.
  rewrite !fold_left_app, !fold_left_map.
  destruct c; reflexivity.
Qed.

(** The text of a line written after [dedent], seen from an earlier state. *)
Lemma closing_line (w x : Writer.t) (text : jsstring) :
  Extends w x ->
  exists s, buffer (writeLine (Some text) (dedent x)) = buffer w ++ s ++ [nl].
Proof.
  intros [s Hs].
  exists (s ++ getIndentation (dedent x) ++ text).
  assert (buffer (dedent x) = buffer x) as Hd.
  { unfold dedent. now destruct (indentLevel x >? 0)%Z. }
  unfold writeLine. simpl. rewrite Hd, Hs.
  now rewrite <- !app_assoc.
Qed.

Lemma Extends_constructorClosing (k : Constructor.t) (w : Writer.t) :
  Extends w (Class_.constructorClosing k w).
Proof. unfold Class_.constructorClosing. extends. Qed.

Lemma Extends_writeConstructor (this_name : jsstring) (k : Constructor.t)
  (w : Writer.t) :
  Extends w (Class_.writeConstructor this_name k w).
Proof.
  rewrite writeConstructor_phases.
  eapply Extends_trans; [apply Extends_constructorOpening|].
  eapply Extends_trans; [apply Extends_constructorDelegation|].
  apply Extends_constructorClosing.
Qed.

Lemma Extends_fold (A : Type) (f : Writer.t -> A -> Writer.t) (l : list A)
  (w : Writer.t) :
  (forall x w', In x l -> Extends w' (f w' x)) -> Extends w (fold_left f l w).
Proof.
  revert w; induction l as [|x l IH]; intros w H; simpl.
  - apply Extends_refl.
  - eapply Extends_trans; [apply H; now left|].
    apply IH. intros y w' Hy. apply H. now right.
Qed.

Lemma In_members_NestedClass (c n : Class_.t) :
  In (Class_.NestedClass n) (Class_.members c) ->
  In n (Class_.nestedClasses c).
Proof.
  unfold Class_.members. rewrite !in_app_iff, !in_map_iff.
  intros [H|[H|[H|[H|[H|H]]]]]; destruct H as (x & Hx & Hin);
    try discriminate.
  now injection Hx as <-.
Qed.

Lemma Extends_write (c : Class_.t) (w : Writer.t) :
  Extends w (Class_.write c w).
Proof.
  revert w. induction c as [c IH] using class_nested_ind. intros w.
  rewrite Forall_forall in IH.
  rewrite write_by_members.
  assert (Extends w
            (fold_left (fun w m => Class_.writeMember (Class_.name c) m w)
                       (Class_.members c) (Class_.writeDeclaration c w)))
    as Hbody.
  { eapply Extends_trans; [apply Extends_writeDeclaration|].
    apply Extends_fold. intros m w' Hm.
    destruct m; cbn [Class_.writeMember]; extends.
    - apply Extends_writeConstructor.
    - apply IH. now apply In_members_NestedClass. }
  extends.
Qed.

Lemma Extends_writeMember (this_name : jsstring) (m : Class_.Member)
  (w : Writer.t) :
  Extends w (Class_.writeMember this_name m w).
Proof.
  destruct m; cbn [Class_.writeMember]; extends.
  - apply Extends_writeConstructor.
  - apply Extends_write.
Qed.

Lemma In_members_Method (c : Class_.t) (node : IAstNode) :
  In (Class_.Method node) (Class_.members c) -> In node (Class_.methods c).
Proof.
  unfold Class_.members. rewrite !in_app_iff, !in_map_iff.
  intros [H|[H|[H|[H|[H|H]]]]]; destruct H as (x & Hx & Hin);
    try discriminate.
  now injection Hx as <-.
Qed.

Lemma In_members_NestedInterface (c : Class_.t) (node : IAstNode) :
  In (Class_.NestedInterface node) (Class_.members c) ->
  In node (Class_.nestedInterfaces c).
Proof.
  unfold Class_.members. rewrite !in_app_iff, !in_map_iff.
  intros [H|[H|[H|[H|[H|H]]]]]; destruct H as (x & Hx & Hin);
    try discriminate.
  now injection Hx as <-.
Qed.

Lemma In_members_NestedEnum (c : Class_.t) (node : IAstNode) :
  In (Class_.NestedEnum node) (Class_.members c) ->
  In node (Class_.nestedEnums c).
Proof.
  unfold Class_.members. rewrite !in_app_iff, !in_map_iff.
  intros [H|[H|[H|[H|[H|H]]]]]; destruct H as (x & Hx & Hin);
    try discriminate.
  now injection Hx as <-.
Qed.

(** A constructor and a class end with the line of their closing brace. *)
Lemma writeConstructor_ends_line (this_name : jsstring) (k : Constructor.t)
  (w : Writer.t) :
  exists s,
    buffer (Class_.writeConstructor this_name k w) = buffer w ++ s ++ [nl].
Proof.
  rewrite writeConstructor_phases. unfold Class_.constructorClosing.
  cbv zeta. apply closing_line.
  assert (Extends w (Class_.constructorDelegation k
                       (Class_.constructorOpening this_name k w))) as H.
  { eapply Extends_trans; [apply Extends_constructorOpening|].
    apply Extends_constructorDelegation. }
  extends.
Qed.

Lemma write_ends_line (c : Class_.t) (w : Writer.t) :
  exists s, buffer (Class_.write c w) = buffer w ++ s ++ [nl].
Proof.
  rewrite write_by_members. apply closing_line.
  eapply Extends_trans; [apply Extends_writeDeclaration|].
  apply Extends_fold. intros m w' _. apply Extends_writeMember.
Qed.

(** After a member, the buffer holds what it held, the text of the member,
    the end of its last line and an empty line. *)
Lemma writeMember_blank_line (this_name : jsstring) (m : Class_.Member)
  (w : Writer.t) :
  (forall node,
      m = Class_.Method node \/ m = Class_.NestedInterface node
      \/ m = Class_.NestedEnum node -> EndsLine node) ->
  exists text,
    buffer (Class_.writeMember this_name m w) = buffer w ++ text ++ [nl; nl].
Proof.
  intros Hends.
  assert (forall x s, buffer x = buffer w ++ s ++ [nl] ->
                      buffer (newLine x) = buffer w ++ s ++ [nl; nl]) as Hnl.
  { intros x s Hx. unfold newLine. simpl. rewrite Hx.
    now rewrite <- !app_assoc. }
  destruct m; cbn [Class_.writeMember].
  - destruct (Extends_writeNode field w) as [s Hs].
    exists s. apply Hnl. unfold writeLine. simpl. rewrite Hs.
    now rewrite <- app_assoc.
  - destruct (writeConstructor_ends_line this_name constructor w) as [s Hs].
    exists s. now apply Hnl.
  - destruct (Hends method (or_introl eq_refl) w) as [s Hs].
    exists s. now apply Hnl.
  - destruct (write_ends_line nestedClass w) as [s Hs].
    exists s. now apply Hnl.
  - destruct (Hends nestedInterface (or_intror (or_introl eq_refl)) w)
      as [s Hs].
    exists s. now apply Hnl.
  - destruct (Hends nestedEnum (or_intror (or_intror eq_refl)) w) as [s Hs].
    exists s. now apply Hnl.
Qed.

(** The arrays of a class after a sequence of [add...] calls. *)
Lemma members_after_adds (adds : list Class_.Member) (c : Class_.t) :
  Class_.members (fold_left (fun c m => Class_.add m c) adds c)
  = (map Class_.Field (Class_.fields c)
       ++ filter Class_.isField adds)
    ++ (map Class_.Ctor (Class_.constructors c)
          ++ filter Class_.isCtor adds)
    ++ (map Class_.Method (Class_.methods c)
          ++ filter Class_.isMethod adds)
    ++ (map Class_.NestedClass (Class_.nestedClasses c)
          ++ filter Class_.isNestedClass_ adds)
    ++ (map Class_.NestedInterface (Class_.nestedInterfaces c)
          ++ filter Class_.isNestedInterface adds)
    ++ (map Class_.NestedEnum (Class_.nestedEnums c)
          ++ filter Class_.isNestedEnum adds).
Proof.
  revert c; induction adds as [|m adds IH]; intros c.
  - cbn [fold_left filter]. rewrite !app_nil_r. reflexivity.
  - cbn [fold_left]. rewrite IH.
    destruct m; cbn [Class_.add filter Class_.isField Class_.isCtor
                       Class_.isMethod Class_.isNestedClass_
                       Class_.isNestedInterface Class_.isNestedEnum];
      unfold Class_.addField, Class_.addConstructor, Class_.addMethod,
        Class_.addNestedClass, Class_.addNestedInterface,
        Class_.addNestedEnum;
      cbn [Class_.fields Class_.constructors Class_.methods
             Class_.nestedClasses Class_.nestedInterfaces Class_.nestedEnums];
      rewrite map_app; cbn [map]; rewrite <- !app_assoc; reflexivity.
Qed.

(** The document of [sampleClass], line by line.  [writeLine] puts the
    indentation in front of its text even when the line has begun, as in
    the line of the constructor's opening brace. *)
Example sampleClass_document :
  toString (Class_.write sampleClass sampleWriter)
  = join [nl]
      [lit "package com.example;";
       lit "";
       lit "import com.example.shapes.Shape;";
       lit "import java.io.IOException;";
       lit "";
       lit "/**";
       lit " * A point.";
       lit " */";
       lit "public abstract class Point extends Shape {";
       lit "private int x;";
       lit "";
       lit "private int y;";
       lit "";
       lit "    /**";
       lit "     * @param x the abscissa";
       lit "     */";
       lit "public Point(int x) throws IOException     {";
       lit "super(x        );";
       lit "        this.x = x;";
       lit "    }";
       lit "";
       lit "    abstract int norm();";
       lit "";
       lit "private static class Origin     {";
       lit "    }";
       lit "";
       lit "    enum Axis { X, Y }";
       lit "";
       lit "}";
       lit ""].
Proof. vm_compute. reflexivity. Qed.

(** The body of a class whose methods, nested interfaces and nested enums
    each end their text with a line break: [write] emits the declaration,
    then the members one after the other -- fields, constructors, methods,
    nested classes, nested interfaces, nested enums -- then the closing
    brace; within each kind the members come in the order of the [add...]
    calls that built the class; and in the final buffer the text of every
    member is followed by the end of its line and an empty line. *)
Theorem class_body_members (c : Class_.t) (w : Writer.t) :
  Forall EndsLine (Class_.methods c) ->
  Forall EndsLine (Class_.nestedInterfaces c) ->
  Forall EndsLine (Class_.nestedEnums c) ->
  Class_.write c w
  = writeLine (Some (lit "}"))
      (dedent
         (fold_left (fun w m => Class_.writeMember (Class_.name c) m w)
                    (Class_.members c) (Class_.writeDeclaration c w)))
  /\ (forall args adds,
         Class_.members
           (fold_left (fun c m => Class_.add m c) adds (Class_.new args))
         = filter Class_.isField adds
           ++ filter Class_.isCtor adds
           ++ filter Class_.isMethod adds
           ++ filter Class_.isNestedClass_ adds
           ++ filter Class_.isNestedInterface adds
           ++ filter Class_.isNestedEnum adds)
  /\ (forall before m after,
         Class_.members c = before ++ m :: after ->
         exists text rest,
           buffer (Class_.writeMember (Class_.name c) m
                     (fold_left
                        (fun w m => Class_.writeMember (Class_.name c) m w)
                        before (Class_.writeDeclaration c w)))
           = buffer (fold_left
                       (fun w m => Class_.writeMember (Class_.name c) m w)
                       before (Class_.writeDeclaration c w))
             ++ text ++ [nl; nl]
           /\ buffer (Class_.write c w)
              = buffer (fold_left
                          (fun w m => Class_.writeMember (Class_.name c) m w)
                          before (Class_.writeDeclaration c w))
                ++ text ++ [nl; nl] ++ rest).
Proof.
  intros Hmethods Hinterfaces Henums.
  rewrite Forall_forall in Hmethods, Hinterfaces, Henums.
  split; [apply write_by_members|]. split.
  - intros args adds. rewrite members_after_adds. reflexivity.
  - intros before m after Hsplit.
    set (w1 := fold_left (fun w m => Class_.writeMember (Class_.name c) m w)
                 before (Class_.writeDeclaration c w)).
    assert (In m (Class_.members c)) as Hin.
    { rewrite Hsplit. apply in_or_app. right. now left. }
    destruct (@writeMember_blank_line (Class_.name c) m w1) as [text Htext].
    { intros node [ -> | [ -> | -> ] ].
      - apply Hmethods. now apply In_members_Method.
      - apply Hinterfaces. now apply In_members_NestedInterface.
      - apply Henums. now apply In_members_NestedEnum. }
    assert (Extends (Class_.writeMember (Class_.name c) m w1)
                    (Class_.write c w)) as [rest Hrest].
    { rewrite write_by_members, Hsplit, fold_left_app. cbn [fold_left].
      fold w1.
      assert (Extends (Class_.writeMember (Class_.name c) m w1)
                (fold_left
                   (fun w m => Class_.writeMember (Class_.name c) m w)
                   after (Class_.writeMember (Class_.name c) m w1))) as H.
      { apply Extends_fold. intros m' w' _. apply Extends_writeMember. }
      extends. }
    exists text, rest. split; [exact Htext|].
    rewrite Hrest, Htext. now rewrite <- !app_assoc.
Qed.

Lemma class_body_members_witness :
  Class_.write sampleClass sampleWriter
  = writeLine (Some (lit "}"))
      (dedent
         (fold_left
            (fun w m => Class_.writeMember (Class_.name sampleClass) m w)
            (Class_.members sampleClass)
            (Class_.writeDeclaration sampleClass sampleWriter))).
Proof.
  assert (forall text, EndsLine [OpWriteLine (Some text)]) as Hline.
  { intros text w. exists (getIndentation w ++ text).
    unfold writeNode, run, writeLine. simpl.
    now rewrite <- !app_assoc. }
  apply (@class_body_members sampleClass sampleWriter).
  - repeat constructor. apply Hline.
  - constructor.
  - repeat constructor. apply Hline.
Defined.

(** C10 (delegation call).  When a constructor record supplies both
    [superCall] and [thisCall], the body of the emitted constructor begins
    with the text [super(], the text of the [superCall] block and the line
    end [);], and the [thisCall] block has no part in the output: any other
    value of [thisCall] gives the same result. *)
Theorem superCall_takes_precedence
  (this_name : jsstring) (k : Constructor.t) (superCall thisCall : IAstNode)
  (w : Writer.t) :
  Constructor.superCall k = Some superCall ->
  Constructor.thisCall k = Some thisCall ->
  Class_.writeConstructor this_name k w
  = Class_.constructorClosing k
      (writeLine (Some (lit ");"))
         (writeNode superCall
            (Writer.write (lit "super(")
               (Class_.constructorOpening this_name k w))))
  /\ (forall other,
         Class_.writeConstructor this_name (Class_.withThisCall other k) w
         = Class_.writeConstructor this_name k w)
  /\ (exists arguments rest,
         buffer (writeNode superCall
                   (Writer.write (lit "super(")
                      (Class_.constructorOpening this_name k w)))
         = buffer (Class_.constructorOpening this_name k w)
           ++ lit "super(" ++ arguments
         /\ buffer (Class_.writeConstructor this_name k w)
            = buffer (Class_.constructorOpening this_name k w)
              ++ lit "super(" ++ arguments ++ rest).
Proof.
  intros Hsuper Hthis.
  assert (Class_.writeConstructor this_name k w
          = Class_.constructorClosing k
              (writeLine (Some (lit ");"))
                 (writeNode superCall
                    (Writer.write (lit "super(")
                       (Class_.constructorOpening this_name k w))))) as Hw.
  { rewrite writeConstructor_phases. unfold Class_.constructorDelegation.
    now rewrite Hsuper. }
  split; [exact Hw|]. split.
  - intros other. rewrite !writeConstructor_phases.
    unfold Class_.constructorDelegation.
    destruct k; simpl in Hsuper; subst; reflexivity.
  - set (w1 := Class_.constructorOpening this_name k w) in *.
    destruct (Extends_writeNode superCall (Writer.write (lit "super(") w1))
      as [arguments Harguments].
    assert (Extends (writeNode superCall (Writer.write (lit "super(") w1))
                    (Class_.writeConstructor this_name k w)) as [rest Hrest].
    { rewrite Hw.
      eapply Extends_trans; [|apply Extends_constructorClosing].
      apply (Extends_step _ (OpWriteLine _)). }
    exists arguments, rest.
    assert (buffer (writeNode superCall (Writer.write (lit "super(") w1))
            = buffer w1 ++ lit "super(" ++ arguments) as Hcall.
    { rewrite Harguments. unfold Writer.write. simpl buffer.
      now rewrite <- app_assoc. }
    split; [exact Hcall|].
    rewrite Hrest, Hcall. now rewrite <- !app_assoc.
Qed.

Lemma superCall_takes_precedence_witness :
  Class_.writeConstructor (lit "Point") sampleConstructor sampleWriter
  = Class_.constructorClosing sampleConstructor
      (writeLine (Some (lit ");"))
         (writeNode [OpWrite (lit "x")]
            (Writer.write (lit "super(")
               (Class_.constructorOpening (lit "Point") sampleConstructor
                  sampleWriter)))).
Proof.
  apply (@superCall_takes_precedence (lit "Point") sampleConstructor
           [OpWrite (lit "x")] [OpWrite (lit "x, 0")] sampleWriter);
    reflexivity.
Defined.

(* ------------------------------------------------------------------------- *)
(** ** formatCode *)

Lemma replaceSpaces_again (code : jsstring) :
  (forall inRun,
      replaceSpaces false (replaceSpaces inRun code)
      = replaceSpaces inRun code)
  /\ replaceSpaces true (replaceSpaces true code) = replaceSpaces true code.
Proof.
  induction code as [|c code [IH1 IH2]]; [split; [intros []|]; reflexivity|].
  split.
  - intros inRun. cbn [replaceSpaces].
    destruct (isWhiteSpace c) eqn:Hc.
    + destruct inRun; [apply IH1|].
      cbn [replaceSpaces]. change (isWhiteSpace space) with true.
      cbv iota. now rewrite IH2.
    + cbn [replaceSpaces]. rewrite Hc. now rewrite IH1.
  - cbn [replaceSpaces]. destruct (isWhiteSpace c) eqn:Hc; [exact IH2|].
    cbn [replaceSpaces]. rewrite Hc. now rewrite IH1.
Qed.

(** Inside a run nothing is put out before the next code unit that is not
    white space. *)
Lemma replaceSpaces_true_head (code : jsstring) :
  replaceSpaces true code = []
  \/ exists c rest, replaceSpaces true code = c :: rest
                    /\ isWhiteSpace c = false.
Proof.
  induction code as [|c code IH]; [now left|].
  cbn [replaceSpaces]. destruct (isWhiteSpace c) eqn:Hc; [exact IH|].
  right. eauto.
Qed.

Lemma replaceSpaces_no_double (inRun : bool) (code p q : jsstring) :
  replaceSpaces inRun code <> p ++ space :: space :: q.
Proof.
  revert inRun p; induction code as [|c code IH]; intros inRun p.
  - cbn [replaceSpaces]. destruct p; discriminate.
  - cbn [replaceSpaces]. destruct (isWhiteSpace c) eqn:Hc.
    + destruct inRun; [apply IH|].
      destruct p as [|a p]; cbn [app]; intros H.
      * injection H as H.
        destruct (replaceSpaces_true_head code) as [E|(c' & r & E & Hc')];
          rewrite E in H; [discriminate|].
        injection H as -> _. discriminate.
      * injection H as _ H. exact (IH _ _ H).
    + destruct p as [|a p]; cbn [app]; intros H.
      * injection H as -> _. discriminate.
      * injection H as _ H. exact (IH _ _ H).
Qed.

Lemma replaceSpaces_units (inRun : bool) (code : jsstring) (c : JsString.unit) :
  In c (replaceSpaces inRun code) -> isWhiteSpace c = true -> c = space.
Proof.
  revert inRun; induction code as [|a code IH]; intros inRun; [intros []|].
  cbn [replaceSpaces]. destruct (isWhiteSpace a) eqn:Ha.
  - destruct inRun; [apply IH|]. intros [<-|H] Hc; [reflexivity|].
    exact (IH _ H Hc).
  - intros [<-|H] Hc; [congruence|]. exact (IH _ H Hc).
Qed.

Lemma replaceSpaces_text (inRun : bool) (code : jsstring) :
  filter (fun c => negb (isWhiteSpace c)) (replaceSpaces inRun code)
  = filter (fun c => negb (isWhiteSpace c)) code.
Proof.
  revert inRun; induction code as [|a code IH]; intros inRun; [reflexivity|].
  cbn [replaceSpaces filter]. destruct (isWhiteSpace a) eqn:Ha; cbn [negb].
  - destruct inRun; [apply IH|]. cbn [filter].
    change (isWhiteSpace space) with true. cbn [negb]. apply IH.
  - cbn [filter]. rewrite Ha. cbn [negb]. now rewrite IH.
Qed.

Lemma replaceSpaces_length (inRun : bool) (code : jsstring) :
  (length (replaceSpaces inRun code) <= length code)%nat.
Proof.
  revert inRun; induction code as [|a code IH]; intros inRun; [reflexivity|].
  cbn [replaceSpaces]. destruct (isWhiteSpace a), inRun; cbn [length];
    try (specialize (IH true); lia); specialize (IH false); lia.
Qed.

(** The example of the test suite. *)
Example formatCode_example :
  formatCode (lit "public   void   method()   {")
  = lit "public void method() {".
Proof. reflexivity. Qed.

(** X1.  [formatCode] is idempotent: formatted code is left as it is. *)
Theorem formatCode_idempotent :
  forall code : jsstring, formatCode (formatCode code) = formatCode code.
Proof. intros code. apply (proj1 (replaceSpaces_again code)). Qed.

(** X2.  In the result of [formatCode] the only white space is the space
    character (no tab, no line break survives), no two spaces are adjacent,
    and the result is not longer than the code. *)
Theorem formatCode_single_spaces :
  forall code : jsstring,
    (forall c, In c (formatCode code) -> isWhiteSpace c = true -> c = space)
    /\ (forall p q, formatCode code <> p ++ space :: space :: q)
    /\ (length (formatCode code) <= length code)%nat.
Proof.
  intros code. split; [|split].
  - intros c. apply replaceSpaces_units.
  - intros p q. apply replaceSpaces_no_double.
  - apply replaceSpaces_length.
Qed.

(** X3.  [formatCode] keeps the code units that are not white space, all of
    them and in their order. *)
Theorem formatCode_keeps_text :
  forall code : jsstring,
    filter (fun c => negb (isWhiteSpace c)) (formatCode code)
    = filter (fun c => negb (isWhiteSpace c)) code.
Proof. intros code. apply replaceSpaces_text. Qed.

(* ------------------------------------------------------------------------- *)
(** ** Text calls and registration calls *)

Ltac unfold_writer :=
  unfold indent, dedent, Writer.write, writeLine, newLine,
    writeNewLineIfLastLineNot, addReference, addImport,
    set_indentLevel, set_buffer, set_imports, set_references in *.

Ltac split_writer_tests :=
  repeat match goal with
         | |- context [if ?b then _ else _] => destruct b eqn:?
         | |- context [match ?o with Some _ => _ | None => _ end] =>
             destruct o eqn:?
         end.

Lemma step_registries (w w' : Writer.t) (o : Op) :
  imports w = imports w' -> references w = references w' ->
  Writer.packageName w = Writer.packageName w' ->
  imports (step w o) = imports (step w' o)
  /\ references (step w o) = references (step w' o)
  /\ Writer.packageName (step w o) = Writer.packageName (step w' o).
Proof.
  intros Hi Hr Hp.
  destruct o; simpl; unfold_writer; rewrite ?Hp; split_writer_tests; simpl;
    rewrite ?Hi, ?Hr; auto.
Qed.

Lemma step_text (w w' : Writer.t) (o : Op) :
  buffer w = buffer w' -> indentLevel w = indentLevel w' ->
  buffer (step w o) = buffer (step w' o)
  /\ indentLevel (step w o) = indentLevel (step w' o).
Proof.
  intros Hb Hl.
  destruct o; simpl; unfold_writer; unfold getIndentation;
    rewrite ?Hb, ?Hl; split_writer_tests; simpl; rewrite ?Hb, ?Hl; auto.
Qed.

Lemma step_not_registration (w : Writer.t) (o : Op) :
  isRegistration o = false ->
  imports (step w o) = imports w /\ references (step w o) = references w
  /\ Writer.packageName (step w o) = Writer.packageName w.
Proof.
  destruct o; try discriminate; intros _; simpl; unfold_writer;
    split_writer_tests; auto.
Qed.

Lemma step_registration (w : Writer.t) (o : Op) :
  isRegistration o = true ->
  buffer (step w o) = buffer w /\ indentLevel (step w o) = indentLevel w.
Proof.
  destruct o; try discriminate; intros _; simpl; unfold_writer;
    split_writer_tests; auto.
Qed.

Lemma run_registries (ops : list Op) (w w' : Writer.t) :
  imports w = imports w' -> references w = references w' ->
  Writer.packageName w = Writer.packageName w' ->
  imports (run ops w) = imports (run (filter isRegistration ops) w')
  /\ references (run ops w) = references (run (filter isRegistration ops) w').
Proof.
  revert w w'; induction ops as [|o ops IH]; intros w w' Hi Hr Hp;
    [now split|].
  change (run (o :: ops) w) with (run ops (step w o)). cbn [filter].
  destruct (isRegistration o) eqn:Ho.
  - change (run (o :: ?l) w') with (run l (step w' o)).
    destruct (@step_registries w w' o Hi Hr Hp) as (H1 & H2 & H3). now apply IH.
  - destruct (@step_not_registration w o Ho) as (H1 & H2 & H3).
    apply IH; congruence.
Qed.

Lemma run_text (ops : list Op) (w w' : Writer.t) :
  buffer w = buffer w' -> indentLevel w = indentLevel w' ->
  buffer (run ops w)
  = buffer (run (filter (fun o => negb (isRegistration o)) ops) w').
Proof.
  revert w w'; induction ops as [|o ops IH]; intros w w' Hb Hl;
    [assumption|].
  change (run (o :: ops) w) with (run ops (step w o)). cbn [filter].
  destruct (isRegistration o) eqn:Ho; cbn [negb].
  - destruct (@step_registration w o Ho) as (H1 & H2).
    apply IH; congruence.
  - change (run (o :: ?l) w') with (run l (step w' o)).
    destruct (@step_text w w' o Hb Hl) as (H1 & H2). now apply IH.
Qed.

Lemma importLines_of_registries (w w' : Writer.t) :
  imports w = imports w' -> references w = references w' ->
  importLines w = importLines w' /\ importSeparator w = importSeparator w'.
Proof.
  intros Hi Hr. unfold importLines, importNames, importSeparator, allImports.
  now rewrite Hi, Hr.
Qed.

Lemma run_skipPackageDeclaration (ops : list Op) (w : Writer.t) :
  skipPackageDeclaration (run ops w) = skipPackageDeclaration w.
Proof.
  revert w; induction ops as [|o ops IH]; intros w; [reflexivity|].
  change (run (o :: ops) w) with (run ops (step w o)). rewrite IH.
  destruct o; simpl; unfold_writer; split_writer_tests; reflexivity.
Qed.

(** X4.  The two phases do not interfere.  The import block of the document
    is the one the registration calls ([addReference], [addImport]) give on
    their own, the body is the buffer the other calls give on their own, and
    the document is the header, that block and that body. *)
Theorem registration_and_text_independent :
  forall (ops : list Op) (w : Writer.t),
    importLines (run ops w)
    = importLines (run (filter isRegistration ops) w)
    /\ buffer (run ops w)
       = buffer (run (filter (fun o => negb (isRegistration o)) ops) w)
    /\ toString (run ops w)
       = packageDeclaration w
         ++ concat (importLines (run (filter isRegistration ops) w))
         ++ importSeparator (run (filter isRegistration ops) w)
         ++ buffer (run (filter (fun o => negb (isRegistration o)) ops) w).
Proof.
  intros ops w.
  destruct (@run_registries ops w w eq_refl eq_refl eq_refl) as [Hi Hr].
  destruct (@importLines_of_registries _ _ Hi Hr) as [Hl Hs].
  pose proof (@run_text ops w w eq_refl eq_refl) as Hb.
  split; [exact Hl|]. split; [exact Hb|].
  rewrite toString_layout, Hl, Hs, Hb.
  unfold packageDeclaration.
  now rewrite run_skipPackageDeclaration, run_packageName.
Qed.

Lemma importSeparator_In (w : Writer.t) (x : jsstring) :
  In x (allImports w) -> importSeparator w = [nl].
Proof.
  unfold importSeparator. destruct (allImports w); [intros []|reflexivity].
Qed.

(** X5.  A reference to a type of another package and the explicit import
    of its qualified name give the same document. *)
Theorem addReference_as_addImport (r : ClassReference.t) (w : Writer.t) :
  ClassReference.packageName r <> Writer.packageName w ->
  toString (addReference r w)
  = toString (addImport (ClassReference.qualified r) w).
Proof.
  intros Hne.
  assert (addReference r w = step w (OpAddReference r)) as E1
      by reflexivity.
  assert (addImport (ClassReference.qualified r) w
          = step w (OpAddImport (ClassReference.qualified r))) as E2
      by reflexivity.
  assert (forall x, In x (importNames (addReference r w))
                    <-> In x (importNames
                                (addImport (ClassReference.qualified r) w)))
    as Hnames.
  { intros x. rewrite !importNames_In, E1, E2, !step_names.
    unfold Registers. split.
    - intros [H|[H|(r' & H & _ & Hq)]]; [tauto|discriminate|].
      injection H as <-. right. left. now rewrite Hq.
    - intros [H|[H|(r' & H & _)]]; [tauto| |discriminate].
      injection H as <-. right. right. exists r. auto. }
  rewrite !toString_layout. unfold importLines.
  rewrite (StronglySorted_unique (importNames_sorted _)
             (importNames_sorted _) Hnames).
  assert (In (ClassReference.qualified r)
             (importNames (addImport (ClassReference.qualified r) w))) as Hin.
  { rewrite importNames_In, E2, step_names. right. now left. }
  rewrite (@importSeparator_In (addImport (ClassReference.qualified r) w)
             (ClassReference.qualified r))
    by (apply sort_In; exact Hin).
  rewrite (@importSeparator_In (addReference r w)
             (ClassReference.qualified r))
    by (apply sort_In, Hnames; exact Hin).
  unfold packageDeclaration, addReference, addImport.
  destruct (JsString.eqb (ClassReference.packageName r)
              (Writer.packageName w)); reflexivity.
Qed.

Lemma addReference_as_addImport_witness :
  toString (addReference
              (ClassReference.mk (lit "List") (lit "java.util"))
              sampleWriter)
  = toString (addImport (lit "java.util.List") sampleWriter).
Proof.
  apply (@addReference_as_addImport
           (ClassReference.mk (lit "List") (lit "java.util")) sampleWriter).
  discriminate.
Defined.

(* ------------------------------------------------------------------------- *)
(** ** Indentation of the lines *)

Lemma dedent_indent (w : Writer.t) :
  (0 <= indentLevel w)%Z -> dedent (indent w) = w.
Proof.
  intros H. unfold dedent, indent, set_indentLevel. simpl.
  replace (indentLevel w + 1 >? 0)%Z with true
    by (symmetry; apply Z.gtb_lt; lia).
  destruct w as [l b i r p s]. simpl in *. f_equal. lia.
Qed.

Lemma indents_then_dedents (n : nat) (w : Writer.t) :
  (0 <= indentLevel w)%Z ->
  run (List.repeat OpIndent n ++ List.repeat OpDedent n) w = w.
Proof.
  revert w; induction n as [|n IH]; intros w H; [reflexivity|].
  cbn [List.repeat]. rewrite (repeat_cons n OpDedent).
  rewrite app_assoc, run_app.
  change (run ((OpIndent :: List.repeat OpIndent n)
               ++ List.repeat OpDedent n) w)
    with (run (List.repeat OpIndent n ++ List.repeat OpDedent n) (indent w)).
  rewrite IH by (simpl; lia).
  now apply dedent_indent.
Qed.

(** X6.  On a writer reached from a fresh one, [n] calls of [indent]
    followed by [n] calls of [dedent] give back the writer as it was. *)
Theorem indent_dedent_restore :
  forall (config : WriterConfig) (ops : list Op) (n : nat),
    run (List.repeat OpIndent n ++ List.repeat OpDedent n)
        (run ops (Writer.new config))
    = run ops (Writer.new config).
Proof.
  intros config ops n. apply indents_then_dedents.
  apply run_indentLevel. simpl. lia.
Qed.

Lemma repeat_spaces (n : nat) :
  JsString.repeat (lit "    ") n = List.repeat space (4 * n).
Proof.
  induction n as [|n IH]; [reflexivity|].
  replace (4 * S n)%nat with (4 + 4 * n)%nat by lia.
  cbn [JsString.repeat]. rewrite IH. reflexivity.
Qed.

Lemma run_indents (k : nat) (w : Writer.t) :
  indentLevel (run (List.repeat OpIndent k) w)
  = (indentLevel w + Z.of_nat k)%Z
  /\ buffer (run (List.repeat OpIndent k) w) = buffer w.
Proof.
  revert w; induction k as [|k IH]; intros w.
  - simpl. split; [lia|reflexivity].
  - cbn [List.repeat].
    change (run (OpIndent :: ?l) w) with (run l (indent w)).
    destruct (IH (indent w)) as [H1 H2]. rewrite H1, H2. simpl.
    split; [lia|reflexivity].
Qed.

(** X7.  [writeLine(text)] appends four spaces for each level of
    indentation, then the text, then a line break; after [k] calls of
    [indent] on a fresh writer the level is [k]. *)
Theorem writeLine_indentation :
  forall (config : WriterConfig) (ops : list Op) (k : nat) (text : jsstring),
    buffer (writeLine (Some text) (run ops (Writer.new config)))
    = buffer (run ops (Writer.new config))
      ++ List.repeat space
           (4 * Z.to_nat (indentLevel (run ops (Writer.new config))))
      ++ text ++ [nl]
    /\ buffer (writeLine (Some text)
                 (run (List.repeat OpIndent k) (Writer.new config)))
       = List.repeat space (4 * k) ++ text ++ [nl].
Proof.
  intros config ops k text.
  assert (forall w, buffer (writeLine (Some text) w)
                    = buffer w
                      ++ List.repeat space (4 * Z.to_nat (indentLevel w))
                      ++ text ++ [nl]) as H.
  { intros w. unfold writeLine, getIndentation. simpl.
    now rewrite repeat_spaces, <- !app_assoc. }
  split; [apply H|].
  rewrite H. destruct (run_indents k (Writer.new config)) as [-> ->].
  simpl indentLevel. simpl buffer. now rewrite Z.add_0_l, Nat2Z.id.
Qed.

(* ------------------------------------------------------------------------- *)
(** ** The guard after a line, and the suppressed header *)

Lemma writeNewLineIfLastLineNot_after_nl (w : Writer.t) (p : jsstring) :
  buffer w = p ++ [nl] -> writeNewLineIfLastLineNot w = w.
Proof.
  intros Hb.
  destruct (writeNewLineIfLastLineNot_cases w)
    as [[Hb' Hw]|[(p' & Hb' & Hw)|(p' & c & Hb' & Hc & Hw)]]; auto.
  rewrite Hb in Hb'. apply app_inj_tail in Hb'. destruct Hb' as [_ <-].
  now contradiction Hc.
Qed.

(** X8.  After [writeLine] or [newLine] the guard
    [writeNewLineIfLastLineNot] does nothing; after [write] of a text whose
    last code unit is not a line break it appends one line break. *)
Theorem guard_after_line :
  forall (w : Writer.t) (text : option jsstring) (t : jsstring)
         (c : JsString.unit),
    writeNewLineIfLastLineNot (writeLine text w) = writeLine text w
    /\ writeNewLineIfLastLineNot (newLine w) = newLine w
    /\ (c <> nl ->
        writeNewLineIfLastLineNot (Writer.write (t ++ [c]) w)
        = newLine (Writer.write (t ++ [c]) w)).
Proof.
  intros w text t c. split; [|split].
  - destruct text as [text|];
      [apply (@writeNewLineIfLastLineNot_after_nl _
                (buffer w ++ getIndentation w ++ text))
      |apply (@writeNewLineIfLastLineNot_after_nl _ (buffer w))];
      unfold writeLine; simpl; now rewrite <- ?app_assoc.
  - now apply (@writeNewLineIfLastLineNot_after_nl _ (buffer w)).
  - intros Hc.
    destruct (writeNewLineIfLastLineNot_cases (Writer.write (t ++ [c]) w))
      as [[Hb _]|[(p & Hb & _)|(p & c' & _ & _ & Hw)]].
    + simpl in Hb. rewrite app_assoc in Hb. now destruct (buffer w ++ t).
    + simpl in Hb. rewrite app_assoc in Hb. apply app_inj_tail in Hb.
      destruct Hb as [_ ->]. now contradiction Hc.
    + exact Hw.
Qed.

(** X9.  With the package declaration suppressed and nothing registered,
    the document is the buffer, unchanged. *)
Theorem suppressed_document_is_buffer (w : Writer.t) :
  skipPackageDeclaration w = true ->
  imports w = [] -> references w = [] ->
  toString w = buffer w.
Proof.
  intros Hs Hi Hr. rewrite toString_layout.
  unfold packageDeclaration, importLines, importNames, importSeparator.
  rewrite Hs, (proj2 (allImports_nil w) (conj Hi Hr)). reflexivity.
Qed.

Lemma suppressed_document_is_buffer_witness :
  toString
    (run [OpWriteLine (Some (lit "int x;")); OpIndent]
         (Writer.new (mkConfig (lit "com.example") (Some true))))
  = buffer
      (run [OpWriteLine (Some (lit "int x;")); OpIndent]
           (Writer.new (mkConfig (lit "com.example") (Some true)))).
Proof.
  apply (@suppressed_document_is_buffer
           (run [OpWriteLine (Some (lit "int x;")); OpIndent]
                (Writer.new (mkConfig (lit "com.example") (Some true)))));
    reflexivity.
Defined.

(* ------------------------------------------------------------------------- *)
(** ** A class acts on the writer through its methods *)

Lemma Reaches_refl (w : Writer.t) : Reaches w w.
Proof. now exists []. Qed.

Lemma Reaches_trans (w1 w2 w3 : Writer.t) :
  Reaches w1 w2 -> Reaches w2 w3 -> Reaches w1 w3.
Proof.
  intros [ops1 ->] [ops2 ->]. exists (ops1 ++ ops2). now rewrite run_app.
Qed.

Lemma Reaches_step (w : Writer.t) (o : Op) : Reaches w (step w o).
Proof. now exists [o]. Qed.

Lemma Reaches_writeNode (node : IAstNode) (w : Writer.t) :
  Reaches w (writeNode node w).
Proof. now exists node. Qed.

Lemma Reaches_let (w0 e : Writer.t) (b : Writer.t -> Writer.t) :
  Reaches w0 e -> (forall x, Reaches x (b x)) ->
  Reaches w0 (let x := e in b x).
Proof. intros H1 H2. cbv zeta. eapply Reaches_trans; eauto. Qed.

Lemma Reaches_fold (A : Type) (f : Writer.t -> A -> Writer.t) (l : list A)
  (w : Writer.t) :
  (forall x w', In x l -> Reaches w' (f w' x)) -> Reaches w (fold_left f l w).
Proof.
  revert w; induction l as [|x l IH]; intros w H; simpl.
  - apply Reaches_refl.
  - eapply Reaches_trans; [apply H; now left|].
    apply IH. intros y w' Hy. apply H. now right.
Qed.

Lemma Reaches_forEach (A : Type) (body : A -> Writer.t -> Writer.t)
  (xs : list A) (w : Writer.t) :
  (forall x w', In x xs -> Reaches w' (body x w')) ->
  Reaches w (forEach body xs w).
Proof. intros H. unfold forEach. now apply Reaches_fold. Qed.

Lemma Reaches_forEachIndexed (A : Type)
  (body : A -> Z -> Writer.t -> Writer.t) (xs : list A) (w : Writer.t) :
  (forall x i w', Reaches w' (body x i w')) ->
  Reaches w (forEachIndexed body xs w).
Proof.
  intros H. unfold forEachIndexed.
  generalize 0%Z as i. revert w.
  induction xs as [|x xs IH]; intros w i; simpl.
  - apply Reaches_refl.
  - eapply Reaches_trans; [apply (H x i w)|]. apply IH.
Qed.

(** A goal [Reaches w e] where [e] is built from [w] by the writer's
    methods, [let], tests and loops. *)
Ltac reaches :=
  lazymatch goal with
  | |- Reaches ?w ?w => apply Reaches_refl
  | |- Reaches ?w0 (let x := ?e in @?b x) =>
      apply (@Reaches_let w0 e b); [reaches | intro; cbv beta; reaches]
  | |- Reaches _ (match ?o with _ => _ end) => destruct o; reaches
  | |- Reaches ?w (forEach _ _ ?x) =>
      apply (@Reaches_trans w x);
      [reaches | apply Reaches_forEach; intros; reaches]
  | |- Reaches ?w (forEachIndexed _ _ ?x) =>
      apply (@Reaches_trans w x);
      [reaches | apply Reaches_forEachIndexed; intros; reaches]
  | |- Reaches ?w (writeNode ?n ?x) =>
      apply (@Reaches_trans w x); [reaches | apply Reaches_writeNode]
  | |- Reaches ?w (Writer.write ?t ?x) =>
      apply (@Reaches_trans w x);
      [reaches | apply (Reaches_step x (OpWrite t))]
  | |- Reaches ?w (writeLine ?t ?x) =>
      apply (@Reaches_trans w x);
      [reaches | apply (Reaches_step x (OpWriteLine t))]
  | |- Reaches ?w (newLine ?x) =>
      apply (@Reaches_trans w x); [reaches | apply (Reaches_step x OpNewLine)]
  | |- Reaches ?w (indent ?x) =>
      apply (@Reaches_trans w x); [reaches | apply (Reaches_step x OpIndent)]
  | |- Reaches ?w (dedent ?x) =>
      apply (@Reaches_trans w x); [reaches | apply (Reaches_step x OpDedent)]
  | |- Reaches ?w (addReference ?r ?x) =>
      apply (@Reaches_trans w x);
      [reaches | apply (Reaches_step x (OpAddReference r))]
  | |- Reaches ?w (addImport ?s ?x) =>
      apply (@Reaches_trans w x);
      [reaches | apply (Reaches_step x (OpAddImport s))]
  | |- _ => eauto
  end.

Lemma Reaches_writeConstructor (this_name : jsstring) (k : Constructor.t)
  (w : Writer.t) :
  Reaches w (Class_.writeConstructor this_name k w).
Proof. unfold Class_.writeConstructor. reaches. Qed.

Lemma Reaches_constructorOpening (this_name : jsstring) (k : Constructor.t)
  (w : Writer.t) :
  Reaches w (Class_.constructorOpening this_name k w).
Proof. unfold Class_.constructorOpening. reaches. Qed.

Lemma Reaches_writeDeclaration (c : Class_.t) (w : Writer.t) :
  Reaches w (Class_.writeDeclaration c w).
Proof. unfold Class_.writeDeclaration. reaches. Qed.

Lemma Reaches_write (c : Class_.t) (w : Writer.t) :
  Reaches w (Class_.write c w).
Proof.
  revert w. induction c as [c IH] using class_nested_ind. intros w.
  rewrite Forall_forall in IH.
  rewrite write_by_members.
  assert (Reaches w
            (fold_left (fun w m => Class_.writeMember (Class_.name c) m w)
                       (Class_.members c) (Class_.writeDeclaration c w)))
    as Hbody.
  { eapply Reaches_trans; [apply Reaches_writeDeclaration|].
    apply Reaches_fold. intros m w' Hm.
    destruct m; cbn [Class_.writeMember]; reaches.
    - apply Reaches_writeConstructor.
    - apply IH. now apply In_members_NestedClass. }
  reaches.
Qed.

Lemma Reaches_writeMember (this_name : jsstring) (m : Class_.Member)
  (w : Writer.t) :
  Reaches w (Class_.writeMember this_name m w).
Proof.
  destruct m; cbn [Class_.writeMember]; reaches.
  - apply Reaches_writeConstructor.
  - apply Reaches_write.
Qed.

Lemma Reaches_packageName (w w' : Writer.t) :
  Reaches w w' -> Writer.packageName w' = Writer.packageName w.
Proof. intros [ops ->]. apply run_packageName. Qed.

Lemma Reaches_importNames (w w' : Writer.t) (x : jsstring) :
  Reaches w w' -> In x (importNames w) -> In x (importNames w').
Proof. intros [ops ->] H. apply run_names. now left. Qed.

(** X10.  Writing a class on a writer reached from a fresh one leaves a
    writer that a sequence of writer calls on the fresh one reaches as well:
    the indentation level is not negative, the target package and the
    suppression flag are those of the configuration, the text in the buffer
    and the registered names are still there. *)
Theorem class_write_keeps_writer :
  forall (c : Class_.t) (config : WriterConfig) (ops : list Op),
    (exists ops',
        Class_.write c (run ops (Writer.new config))
        = run ops' (Writer.new config))
    /\ (0 <= indentLevel (Class_.write c (run ops (Writer.new config))))%Z
    /\ Writer.packageName (Class_.write c (run ops (Writer.new config)))
       = cfg_packageName config
    /\ skipPackageDeclaration
         (Class_.write c (run ops (Writer.new config)))
       = skipPackageDeclaration (Writer.new config)
    /\ Extends (run ops (Writer.new config))
               (Class_.write c (run ops (Writer.new config)))
    /\ (forall x,
           In x (importNames (run ops (Writer.new config))) ->
           In x (importNames
                   (Class_.write c (run ops (Writer.new config))))).
Proof.
  intros c config ops.
  destruct (Reaches_write c (run ops (Writer.new config))) as [ops' Hw].
  assert (Class_.write c (run ops (Writer.new config))
          = run (ops ++ ops') (Writer.new config)) as E
      by (now rewrite run_app).
  split; [now exists (ops ++ ops')|].
  split; [rewrite E; apply run_indentLevel; simpl; lia|].
  split; [rewrite E; apply run_packageName|].
  split; [rewrite E; apply run_skipPackageDeclaration|].
  split; [apply Extends_write|].
  intros x. apply Reaches_importNames. now exists ops'.
Qed.

(* ------------------------------------------------------------------------- *)
(** ** The imports a class brings *)

Lemma In_importNames_addReference (r : ClassReference.t) (w : Writer.t) :
  ClassReference.packageName r <> Writer.packageName w ->
  In (ClassReference.qualified r) (importNames (addReference r w)).
Proof.
  intros Hne.
  change (addReference r w) with (step w (OpAddReference r)).
  rewrite importNames_In, step_names. right. right. exists r. auto.
Qed.

(** A loop over references that registers each of them registers [r]. *)
Lemma In_importNames_forEachIndexed
  (body : ClassReference.t -> Z -> Writer.t -> Writer.t)
  (xs : list ClassReference.t) (w : Writer.t) (r : ClassReference.t)
  (x : jsstring) :
  In r xs ->
  (forall a i w', Reaches w' (body a i w')) ->
  (forall i w', Writer.packageName w' = Writer.packageName w ->
                In x (importNames (body r i w'))) ->
  In x (importNames (forEachIndexed body xs w)).
Proof.
  intros Hin Hreach Hbody. unfold forEachIndexed.
  generalize 0%Z as i. revert w Hbody Hin.
  induction xs as [|a xs IH]; intros w Hbody Hin i; [destruct Hin|].
  cbn [fold_left fst snd]. destruct Hin as [->|Hin].
  - apply (@Reaches_importNames (body r i w)); [|now apply Hbody].
    pose proof (@Reaches_forEachIndexed _ body xs (body r i w) Hreach) as H.
    clear -H Hreach. revert H. unfold forEachIndexed.
    generalize (body r i w) as w0. generalize (i + 1)%Z as j.
    intros j w0 _. revert w0 j.
    induction xs as [|b xs IH]; intros w0 j; [apply Reaches_refl|].
    cbn [fold_left fst snd].
    eapply Reaches_trans; [apply (Hreach b j w0)|apply IH].
  - apply IH; [|assumption].
    intros j w' Hw'. apply Hbody.
    rewrite Hw'. apply Reaches_packageName, Hreach.
Qed.

Lemma In_importNames_fold (A : Type) (f : Writer.t -> A -> Writer.t)
  (l : list A) (w : Writer.t) (m : A) (x : jsstring) :
  In m l ->
  (forall a w', Reaches w' (f w' a)) ->
  (forall w', Writer.packageName w' = Writer.packageName w ->
              In x (importNames (f w' m))) ->
  In x (importNames (fold_left f l w)).
Proof.
  intros Hin Hreach Hm. revert w Hm Hin.
  induction l as [|a l IH]; intros w Hm Hin; [destruct Hin|].
  cbn [fold_left]. destruct Hin as [->|Hin].
  - apply (@Reaches_importNames (f w m)); [|now apply Hm].
    apply Reaches_fold. intros y w' _. apply Hreach.
  - apply IH; [|assumption].
    intros w' Hw'. apply Hm.
    rewrite Hw'. apply Reaches_packageName, Hreach.
Qed.

Lemma In_importNames_let_here (e : Writer.t) (b : Writer.t -> Writer.t)
  (x : jsstring) :
  In x (importNames e) -> (forall y, Reaches y (b y)) ->
  In x (importNames (let y := e in b y)).
Proof. intros H Hb. cbv zeta. now apply (@Reaches_importNames e). Qed.

Lemma In_importNames_let_later (w e : Writer.t) (b : Writer.t -> Writer.t)
  (x target : jsstring) :
  Reaches w e -> Writer.packageName w = target ->
  (forall y, Writer.packageName y = target -> In x (importNames (b y))) ->
  In x (importNames (let y := e in b y)).
Proof.
  intros He Hw Hb. cbv zeta. apply Hb.
  now rewrite (Reaches_packageName He).
Qed.

(** The name is registered after the first binding of the chain. *)
Ltac later :=
  lazymatch goal with
  | Hw : Writer.packageName ?w = ?target
    |- In ?x (importNames (let y := ?e in @?b y)) =>
      apply (@In_importNames_let_later w e b x target);
      [reaches | exact Hw | clear Hw; intros ? Hw; cbv beta]
  end.

(** The name is registered by the first binding of the chain. *)
Ltac here :=
  lazymatch goal with
  | |- In ?x (importNames (let y := ?e in @?b y)) =>
      apply (@In_importNames_let_here e b x);
      [ | intro; cbv beta; reaches]
  end.

(** The outermost call does not take the name away. *)
Ltac keep_name :=
  lazymatch goal with
  | |- In _ (importNames (?f ?y)) =>
      apply (@Reaches_importNames y (f y)); [reaches|]
  end.

Lemma len_pos (A : Type) (a : A) (xs : list A) :
  In a xs -> (len xs >? 0)%Z = true.
Proof.
  intros H. destruct xs; [destruct H|].
  unfold len. cbn [length]. apply Z.gtb_lt. lia.
Qed.

Lemma writeDeclaration_registers (c : Class_.t) (w : Writer.t)
  (r : ClassReference.t) :
  In r (optional (Class_.extends_ c) ++ Class_.implements_ c) ->
  ClassReference.packageName r <> Writer.packageName w ->
  In (ClassReference.qualified r)
     (importNames (Class_.writeDeclaration c w)).
Proof.
  intros Hin Hne. apply in_app_or in Hin.
  remember (Writer.packageName w) as target eqn:Hw. symmetry in Hw.
  cbv beta delta [Class_.writeDeclaration].
  do 9 later.
  destruct Hin as [Hin|Hin].
  - here.
    destruct (Class_.extends_ c) as [e|]; [|destruct Hin].
    destruct Hin as [<-|[]]. cbv zeta. keep_name.
    apply In_importNames_addReference. simpl. now rewrite Hw.
  - later. here.
    rewrite (len_pos _ _ Hin). cbv zeta.
    apply (@In_importNames_forEachIndexed _ _ _ r); [assumption| |].
    + intros; reaches.
    + intros i w' Hw'. cbv zeta.
      match goal with
      | |- In _ (importNames (if ?b then _ else _)) =>
          destruct b; [keep_name|]
      end; keep_name; apply In_importNames_addReference; rewrite Hw';
        simpl; now rewrite Hw.
Qed.

Lemma constructorOpening_registers (this_name : jsstring)
  (k : Constructor.t) (w : Writer.t) (r : ClassReference.t) :
  In r (Class_.orEmpty (Constructor.throws k)) ->
  ClassReference.packageName r <> Writer.packageName w ->
  In (ClassReference.qualified r)
     (importNames (Class_.constructorOpening this_name k w)).
Proof.
  intros Hin Hne.
  remember (Writer.packageName w) as target eqn:Hw. symmetry in Hw.
  cbv beta delta [Class_.constructorOpening].
  do 5 later. here.
  destruct (Constructor.throws k) as [throws|]; [|destruct Hin].
  cbn [Class_.orEmpty] in Hin.
  rewrite (len_pos _ _ Hin). cbv zeta.
  apply (@In_importNames_forEachIndexed _ _ _ r); [assumption| |].
  - intros; reaches.
  - intros i w' Hw'. cbv zeta.
    match goal with
    | |- In _ (importNames (if ?b then _ else _)) =>
        destruct b; [keep_name|]
    end; keep_name; apply In_importNames_addReference; rewrite Hw';
      simpl; now rewrite Hw.
Qed.

Lemma classReferences_eq (c : Class_.t) :
  classReferences c
  = optional (Class_.extends_ c)
    ++ Class_.implements_ c
    ++ flat_map (fun k => Class_.orEmpty (Constructor.throws k))
                (Class_.constructors c)
    ++ flat_map classReferences (Class_.nestedClasses c).
Proof. destruct c; reflexivity. Qed.

Lemma In_members_of_arrays (c : Class_.t) :
  (forall k, In k (Class_.constructors c) ->
             In (Class_.Ctor k) (Class_.members c))
  /\ (forall n, In n (Class_.nestedClasses c) ->
                In (Class_.NestedClass n) (Class_.members c)).
Proof.
  unfold Class_.members. split; intros x Hx; rewrite !in_app_iff.
  - right. left. now apply in_map.
  - right. right. right. left. now apply in_map.
Qed.

Lemma Reaches_constructorClosing (k : Constructor.t) (w : Writer.t) :
  Reaches w (Class_.constructorClosing k w).
Proof. unfold Class_.constructorClosing. reaches. Qed.

Lemma Reaches_constructorDelegation (k : Constructor.t) (w : Writer.t) :
  Reaches w (Class_.constructorDelegation k w).
Proof. unfold Class_.constructorDelegation. reaches. Qed.

Lemma write_registers (c : Class_.t) :
  forall (w : Writer.t) (r : ClassReference.t),
    In r (classReferences c) ->
    ClassReference.packageName r <> Writer.packageName w ->
    In (ClassReference.qualified r) (importNames (Class_.write c w)).
Proof.
  induction c as [c IH] using class_nested_ind. intros w r Hin Hne.
  rewrite Forall_forall in IH.
  rewrite classReferences_eq in Hin.
  rewrite app_assoc in Hin. apply in_app_or in Hin.
  rewrite write_by_members. do 2 keep_name.
  assert (forall w', Writer.packageName w'
                     = Writer.packageName (Class_.writeDeclaration c w) ->
                     Writer.packageName w' = Writer.packageName w) as Hpkg.
  { intros w' ->. apply Reaches_packageName, Reaches_writeDeclaration. }
  destruct Hin as [Hin|Hin].
  - apply (@Reaches_importNames (Class_.writeDeclaration c w)).
    + apply Reaches_fold. intros m w' _. apply Reaches_writeMember.
    + now apply writeDeclaration_registers.
  - apply in_app_or in Hin. destruct Hin as [Hin|Hin];
      apply in_flat_map in Hin; destruct Hin as (y & Hy & Hr).
    + apply (@In_importNames_fold _ _ _ _ (Class_.Ctor y)).
      * now apply In_members_of_arrays.
      * intros m w'. apply Reaches_writeMember.
      * intros w' Hw'. cbn [Class_.writeMember]. keep_name.
        rewrite writeConstructor_phases.
        eapply Reaches_importNames;
          [eapply Reaches_trans;
           [apply Reaches_constructorDelegation
           |apply Reaches_constructorClosing]|].
        apply constructorOpening_registers; [assumption|].
        now rewrite (Hpkg _ Hw').
    + apply (@In_importNames_fold _ _ _ _ (Class_.NestedClass y)).
      * now apply In_members_of_arrays.
      * intros m w'. apply Reaches_writeMember.
      * intros w' Hw'. cbn [Class_.writeMember]. keep_name.
        apply IH; [assumption..|]. now rewrite (Hpkg _ Hw').
Qed.

(** X11.  Every type a class names as its supertype, as an interface it
    implements or as thrown by one of its constructors -- the class itself
    or a class nested in it -- has exactly one import line in the document,
    when its package is not the target package of the writer. *)
Theorem class_references_imported
  (c : Class_.t) (w : Writer.t) (r : ClassReference.t) :
  In r (classReferences c) ->
  ClassReference.packageName r <> Writer.packageName w ->
  count_occ JsString.eq_dec (importLines (Class_.write c w))
            (importLine (ClassReference.qualified r)) = 1%nat.
Proof.
  intros Hin Hne.
  apply NoDup_count_occ'; [apply importLines_NoDup|].
  apply importLines_In. exists (ClassReference.qualified r).
  split; [reflexivity|]. now apply write_registers.
Qed.

Lemma class_references_imported_witness :
  count_occ JsString.eq_dec
    (importLines (Class_.write sampleClass sampleWriter))
    (importLine (lit "java.io.IOException")) = 1%nat.
Proof.
  apply (@class_references_imported sampleClass sampleWriter
           (ClassReference.mk (lit "IOException") (lit "java.io"))).
  - simpl. tauto.
  - discriminate.
Defined.

(* ------------------------------------------------------------------------- *)
(** ** The indentation a class leaves behind *)

Lemma Shift_refl (w : Writer.t) : Shift 0 w w.
Proof. intros _. lia. Qed.

Lemma Shift_trans (d : Z) (w1 w2 w3 : Writer.t) :
  Shift 0 w1 w2 -> Shift d w2 w3 -> Shift d w1 w3.
Proof.
  unfold Shift. intros H1 H2 H. specialize (H1 H).
  rewrite H2 by lia. lia.
Qed.

Lemma Shift_let (d : Z) (w0 e : Writer.t) (b : Writer.t -> Writer.t) :
  Shift 0 w0 e -> (forall x, Shift d x (b x)) ->
  Shift d w0 (let x := e in b x).
Proof. intros H1 H2. cbv zeta. eapply Shift_trans; eauto. Qed.

Lemma Shift_text (w : Writer.t) (o : Op) :
  o <> OpIndent -> o <> OpDedent -> Shift 0 w (step w o).
Proof.
  intros Hi Hd _. destruct o; try congruence; simpl; unfold_writer;
    split_writer_tests; simpl; lia.
Qed.

Lemma Shift_writeNode (node : IAstNode) (w : Writer.t) :
  Balanced node -> Shift 0 w (writeNode node w).
Proof. intros Hb H. rewrite Hb by assumption. lia. Qed.

Lemma Shift_fold (A : Type) (f : Writer.t -> A -> Writer.t) (l : list A)
  (w : Writer.t) :
  (forall x w', In x l -> Shift 0 w' (f w' x)) -> Shift 0 w (fold_left f l w).
Proof.
  revert w; induction l as [|x l IH]; intros w H; simpl.
  - apply Shift_refl.
  - eapply Shift_trans; [apply H; now left|].
    apply IH. intros y w' Hy. apply H. now right.
Qed.

Lemma Shift_forEach (A : Type) (body : A -> Writer.t -> Writer.t)
  (xs : list A) (w : Writer.t) :
  (forall x w', In x xs -> Shift 0 w' (body x w')) ->
  Shift 0 w (forEach body xs w).
Proof. intros H. unfold forEach. now apply Shift_fold. Qed.

Lemma Shift_forEachIndexed (A : Type)
  (body : A -> Z -> Writer.t -> Writer.t) (xs : list A) (w : Writer.t) :
  (forall x i w', In x xs -> Shift 0 w' (body x i w')) ->
  Shift 0 w (forEachIndexed body xs w).
Proof.
  unfold forEachIndexed.
  assert (forall (i : Z) (w : Writer.t),
             (forall x j w', In x xs -> Shift 0 w' (body x j w')) ->
             Shift 0 w
               (snd (fold_left
                       (fun st x => ((fst st + 1)%Z, body x (fst st) (snd st)))
                       xs (i, w)))) as Hgen.
  { induction xs as [|x xs IH]; intros i w0 H; simpl.
    - apply Shift_refl.
    - eapply Shift_trans; [apply (H x i w0); now left|].
      apply IH. intros y j w' Hy. apply H. now right. }
  apply Hgen.
Qed.

(** A goal [Shift 0 w e] where [e] is built from [w] without [indent] and
    [dedent]; the nodes met on the way are left as goals [Balanced _]. *)
Ltac level :=
  lazymatch goal with
  | |- Shift 0 ?w ?w => apply Shift_refl
  | |- Shift 0 ?w0 (let x := ?e in @?b x) =>
      apply (@Shift_let 0 w0 e b); [level | intro; cbv beta; level]
  | |- Shift 0 _ (match ?o with _ => _ end) => destruct o eqn:?; level
  | |- Shift 0 ?w (forEach _ _ ?x) =>
      apply (@Shift_trans 0 w x);
      [level | apply Shift_forEach; intros; level]
  | |- Shift 0 ?w (forEachIndexed _ _ ?x) =>
      apply (@Shift_trans 0 w x);
      [level | apply Shift_forEachIndexed; intros; level]
  | |- Shift 0 ?w (writeNode ?n ?x) =>
      apply (@Shift_trans 0 w x); [level | apply Shift_writeNode]
  | |- Shift 0 ?w (Writer.write ?t ?x) =>
      apply (@Shift_trans 0 w x);
      [level | apply (@Shift_text x (OpWrite t)); discriminate]
  | |- Shift 0 ?w (writeLine ?t ?x) =>
      apply (@Shift_trans 0 w x);
      [level | apply (@Shift_text x (OpWriteLine t)); discriminate]
  | |- Shift 0 ?w (newLine ?x) =>
      apply (@Shift_trans 0 w x);
      [level | apply (@Shift_text x OpNewLine); discriminate]
  | |- Shift 0 ?w (addReference ?r ?x) =>
      apply (@Shift_trans 0 w x);
      [level | apply (@Shift_text x (OpAddReference r)); discriminate]
  | |- _ => eauto
  end.

(** A chain of bindings that ends with [indent]. *)
Ltac level_up :=
  lazymatch goal with
  | |- Shift 1 ?w0 (let x := ?e in @?b x) =>
      apply (@Shift_let 1 w0 e b); [level | intro; cbv beta; level_up]
  | |- Shift 1 ?x (indent ?x) => intros _; reflexivity
  end.

Lemma Shift_writeDeclaration (c : Class_.t) (w : Writer.t) :
  (forall n, In n (Class_.annotations c) -> Balanced n) ->
  Shift 1 w (Class_.writeDeclaration c w).
Proof.
  intros Hn. cbv beta delta [Class_.writeDeclaration]. level_up; auto.
Qed.

(** The node met in a constructor is one of [constructorNodes]. *)
Ltac constructor_node Hn :=
  apply Hn; unfold constructorNodes;
  repeat match goal with
         | E : _ = _ |- _ => rewrite E; clear E
         | E : _ = _ |- _ => clear E
         end;
  cbn [Class_.orEmpty optional]; rewrite !in_app_iff; cbn [In];
  auto 10 using in_map.

Lemma Shift_constructorOpening (this_name : jsstring) (k : Constructor.t)
  (w : Writer.t) :
  (forall n, In n (constructorNodes k) -> Balanced n) ->
  Shift 1 w (Class_.constructorOpening this_name k w).
Proof.
  intros Hn. cbv beta delta [Class_.constructorOpening].
  level_up; constructor_node Hn.
Qed.

Lemma Shift_constructorDelegation (k : Constructor.t) (w : Writer.t) :
  (forall n, In n (constructorNodes k) -> Balanced n) ->
  Shift 0 w (Class_.constructorDelegation k w).
Proof.
  intros Hn. cbv beta delta [Class_.constructorDelegation].
  level; constructor_node Hn.
Qed.

Lemma dedent_down (w : Writer.t) :
  (1 <= indentLevel w)%Z ->
  indentLevel (dedent w) = (indentLevel w - 1)%Z.
Proof.
  intros H. unfold dedent.
  replace (indentLevel w >? 0)%Z with true
    by (symmetry; apply Z.gtb_lt; lia).
  reflexivity.
Qed.

Lemma constructorClosing_down (k : Constructor.t) (w : Writer.t) :
  (forall n, In n (constructorNodes k) -> Balanced n) ->
  (1 <= indentLevel w)%Z ->
  indentLevel (Class_.constructorClosing k w) = (indentLevel w - 1)%Z.
Proof.
  intros Hn H. unfold Class_.constructorClosing.
  assert (indentLevel
            match Constructor.body k with
            | Some body => writeNode body w
            | None => w
            end = indentLevel w) as Hbody.
  { destruct (Constructor.body k) as [body|] eqn:E; [|reflexivity].
    apply Hn; [|lia]. unfold constructorNodes. rewrite E, !in_app_iff.
    cbn [optional In]. auto 10. }
  cbv zeta.
  change (indentLevel (writeLine ?t ?x)) with (indentLevel x).
  rewrite dedent_down; rewrite Hbody; lia.
Qed.

Lemma Shift_writeConstructor (this_name : jsstring) (k : Constructor.t)
  (w : Writer.t) :
  (forall n, In n (constructorNodes k) -> Balanced n) ->
  Shift 0 w (Class_.writeConstructor this_name k w).
Proof.
  intros Hn H. rewrite writeConstructor_phases.
  pose proof (@Shift_constructorOpening this_name k w Hn H) as H1.
  pose proof (@Shift_constructorDelegation k
                (Class_.constructorOpening this_name k w) Hn) as H2.
  unfold Shift in H2. rewrite H1 in H2. specialize (H2 ltac:(lia)).
  rewrite constructorClosing_down; [|assumption|]; rewrite H2; lia.
Qed.

Lemma classNodes_eq (c : Class_.t) :
  classNodes c
  = Class_.annotations c
    ++ Class_.fields c
    ++ flat_map constructorNodes (Class_.constructors c)
    ++ Class_.methods c
    ++ flat_map classNodes (Class_.nestedClasses c)
    ++ Class_.nestedInterfaces c
    ++ Class_.nestedEnums c.
Proof. destruct c; reflexivity. Qed.

Lemma In_members_Field (c : Class_.t) (node : IAstNode) :
  In (Class_.Field node) (Class_.members c) -> In node (Class_.fields c).
Proof.
  unfold Class_.members. rewrite !in_app_iff, !in_map_iff.
  intros [H|[H|[H|[H|[H|H]]]]]; destruct H as (x & Hx & Hin);
    try discriminate.
  now injection Hx as <-.
Qed.

Lemma In_members_Ctor (c : Class_.t) (k : Constructor.t) :
  In (Class_.Ctor k) (Class_.members c) -> In k (Class_.constructors c).
Proof.
  unfold Class_.members. rewrite !in_app_iff, !in_map_iff.
  intros [H|[H|[H|[H|[H|H]]]]]; destruct H as (x & Hx & Hin);
    try discriminate.
  now injection Hx as <-.
Qed.

Lemma Shift_write (c : Class_.t) :
  forall w : Writer.t,
    (forall n, In n (classNodes c) -> Balanced n) ->
    Shift 0 w (Class_.write c w).
Proof.
  induction c as [c IH] using class_nested_ind. intros w Hn.
  rewrite Forall_forall in IH.
  assert (forall n,
             In n (Class_.annotations c) \/ In n (Class_.fields c)
             \/ (exists k, In k (Class_.constructors c)
                           /\ In n (constructorNodes k))
             \/ In n (Class_.methods c)
             \/ (exists x, In x (Class_.nestedClasses c)
                           /\ In n (classNodes x))
             \/ In n (Class_.nestedInterfaces c)
             \/ In n (Class_.nestedEnums c) -> Balanced n) as Hparts.
  { intros n H. apply Hn. rewrite classNodes_eq, !in_app_iff, !in_flat_map.
    exact H. }
  clear Hn. intros Hw. rewrite write_by_members.
  change (indentLevel (writeLine ?t ?x)) with (indentLevel x).
  assert (indentLevel
            (fold_left (fun w m => Class_.writeMember (Class_.name c) m w)
                       (Class_.members c) (Class_.writeDeclaration c w))
          = (indentLevel w + 1)%Z) as Hbody.
  { assert (indentLevel (Class_.writeDeclaration c w)
            = (indentLevel w + 1)%Z) as Hdecl
        by (apply Shift_writeDeclaration; auto).
    assert (Shift 0 (Class_.writeDeclaration c w)
              (fold_left (fun w m => Class_.writeMember (Class_.name c) m w)
                         (Class_.members c) (Class_.writeDeclaration c w)))
      as Hfold; [|rewrite Hfold; lia].
    apply Shift_fold. intros m w' Hm.
    destruct m; cbn [Class_.writeMember]; level.
    - apply Hparts. right. left. now apply In_members_Field.
    - apply Shift_writeConstructor. intros n Hin. apply Hparts.
      right. right. left. exists constructor.
      split; [now apply In_members_Ctor|assumption].
    - apply Hparts. do 3 right. left. now apply In_members_Method.
    - apply IH; [now apply In_members_NestedClass|].
      intros n Hin. apply Hparts. do 4 right. left. exists nestedClass.
      split; [now apply In_members_NestedClass|assumption].
    - apply Hparts. do 5 right. left.
      now apply In_members_NestedInterface.
    - apply Hparts. do 6 right. now apply In_members_NestedEnum. }
  rewrite dedent_down; rewrite Hbody; lia.
Qed.

(** X12.  A class whose nodes -- annotations, fields, methods, nested
    interfaces and enums, the blocks and parameters of its constructors,
    and those of its nested classes -- each leave the indentation level as
    they found it, leaves the level as it found it: the text after the class
    is indented like the text before it. *)
Theorem class_write_balanced (c : Class_.t) (w : Writer.t) :
  Forall Balanced (classNodes c) ->
  (0 <= indentLevel w)%Z ->
  indentLevel (Class_.write c w) = indentLevel w.
Proof.
  intros Hn Hw. rewrite Forall_forall in Hn.
  rewrite (@Shift_write c w Hn Hw). lia.
Qed.

Lemma class_write_balanced_witness :
  indentLevel (Class_.write sampleClass (indent (indent sampleWriter)))
  = indentLevel (indent (indent sampleWriter)).
Proof.
  apply (@class_write_balanced sampleClass (indent (indent sampleWriter))).
  - let nodes := eval vm_compute in (classNodes sampleClass) in
    change (classNodes sampleClass) with nodes.
    repeat apply Forall_cons; try apply Forall_nil;
      intros w _; reflexivity.
  - cbn. lia.
Defined.

(* ------------------------------------------------------------------------- *)
(** ** The text of a class declaration *)

Lemma Emits_let (L d : Z) (w e : Writer.t) (b : Writer.t -> Writer.t)
  (t1 t2 : jsstring) :
  Emits L 0 w e t1 -> (forall x, Emits L d x (b x) t2) ->
  Emits L d w (let x := e in b x) (t1 ++ t2).
Proof.
  intros H1 H2 HL. cbv zeta. destruct (H1 HL) as [Hb Hl].
  rewrite Z.add_0_r in Hl. destruct (H2 e Hl) as [Hb' Hl'].
  split; [|assumption]. now rewrite Hb', Hb, app_assoc.
Qed.

(** The first binding of a chain, when the text is split accordingly. *)
Ltac emits_let :=
  lazymatch goal with
  | |- Emits ?L ?d ?w (let x := ?e in @?b x) (?t1 ++ ?t2) =>
      apply (@Emits_let L d w e b t1 t2); [|intro; cbv beta]
  end.

Lemma Emits_same (L : Z) (w : Writer.t) : Emits L 0 w w [].
Proof. intros HL. rewrite app_nil_r, Z.add_0_r. auto. Qed.

Lemma Emits_write (L : Z) (w : Writer.t) (t : jsstring) :
  Emits L 0 w (Writer.write t w) t.
Proof. intros HL. rewrite Z.add_0_r. auto. Qed.

Lemma Emits_writeLine (L : Z) (w : Writer.t) (t : jsstring) :
  Emits L 0 w (writeLine (Some t) w) (margin L ++ t ++ [nl]).
Proof.
  intros HL. rewrite Z.add_0_r. split; [|assumption].
  unfold writeLine, getIndentation, margin. simpl. rewrite HL.
  now rewrite <- !app_assoc.
Qed.

Lemma Emits_modifier (L : Z) (w : Writer.t) (b : bool) (t : jsstring) :
  Emits L 0 w (if b then Writer.write t w else w) (if b then t else []).
Proof. destruct b; [apply Emits_write|apply Emits_same]. Qed.

Lemma Emits_javadoc_lines (L : Z) (lines : list jsstring) (w : Writer.t) :
  Emits L 0 w
    (forEach (fun line => writeLine (Some (lit " * " ++ line))) lines w)
    (concat (map (fun line => margin L ++ (lit " * " ++ line) ++ [nl])
                 lines)).
Proof.
  unfold forEach. revert w; induction lines as [|line lines IH]; intros w.
  - apply Emits_same.
  - cbn [fold_left map concat].
    apply (@Emits_let L 0 w (writeLine (Some (lit " * " ++ line)) w)
             (fun x => fold_left
                         (fun w x => writeLine (Some (lit " * " ++ x)) w)
                         lines x)).
    + apply Emits_writeLine.
    + intros x. apply IH.
Qed.

Lemma Emits_javadoc (L : Z) (javadoc : option jsstring) (w : Writer.t) :
  Emits L 0 w
    match javadoc with
    | Some ((_ :: _) as javadoc) =>
        let w := writeLine (Some (lit "/**")) w in
        let w :=
          forEach (fun line => writeLine (Some (lit " * " ++ line)))
                  (split_nl javadoc) w in
        writeLine (Some (lit " */")) w
    | _ => w
    end
    (javadocText (margin L) javadoc).
Proof.
  destruct javadoc as [[|c doc]|]; try apply Emits_same.
  cbv beta iota delta [javadocText].
  emits_let; [apply Emits_writeLine|].
  emits_let; [apply Emits_javadoc_lines|].
  apply Emits_writeLine.
Qed.

Lemma Emits_typeParameters (L : Z) (tps : list jsstring) (w : Writer.t) :
  Emits L 0 w
    (if (len tps >? 0)%Z then
       let w := Writer.write (lit "<") w in
       let w := Writer.write (join (lit ", ") tps) w in
       Writer.write (lit ">") w
     else w)
    match tps with
    | [] => []
    | _ :: _ => lit "<" ++ join (lit ", ") tps ++ lit ">"
    end.
Proof.
  destruct tps as [|tp tps]; [apply Emits_same|].
  rewrite (@len_pos _ tp) by now left.
  emits_let; [apply Emits_write|].
  emits_let; [apply Emits_write|].
  apply Emits_write.
Qed.

Lemma addReference_text (r : ClassReference.t) (w : Writer.t) :
  buffer (addReference r w) = buffer w
  /\ indentLevel (addReference r w) = indentLevel w.
Proof.
  unfold addReference.
  destruct (JsString.eqb (ClassReference.packageName r)
              (Writer.packageName w)); auto.
Qed.

Lemma Emits_extends (L : Z) (extends_ : option ClassReference.t)
  (w : Writer.t) :
  Emits L 0 w
    match extends_ with
    | Some extends_ =>
        let w := Writer.write (lit " extends ") w in
        let w := addReference extends_ w in
        Writer.write (ClassReference.name extends_) w
    | None => w
    end
    match extends_ with
    | Some e => lit " extends " ++ ClassReference.name e
    | None => []
    end.
Proof.
  destruct extends_ as [e|]; [|apply Emits_same].
  intros HL. cbv zeta.
  destruct (addReference_text e (Writer.write (lit " extends ") w))
    as [Hb Hl].
  split.
  - change (buffer (addReference e (Writer.write (lit " extends ") w))
            ++ ClassReference.name e
            = buffer w ++ lit " extends " ++ ClassReference.name e).
    rewrite Hb. simpl buffer. now rewrite <- app_assoc.
  - change (indentLevel (addReference e (Writer.write (lit " extends ") w))
            = (L + 0)%Z).
    rewrite Hl. simpl indentLevel. lia.
Qed.

(** The loop of the [implements] clause writes the simple names with
    [", "] between them. *)
Lemma implements_loop (n : Z) (refs : list ClassReference.t) :
  forall (i : Z) (w : Writer.t),
    (i + len refs = n)%Z ->
    buffer
      (snd (fold_left
              (fun st interfaceRef =>
                 ((fst st + 1)%Z,
                  let w := addReference interfaceRef (snd st) in
                  let w := Writer.write (ClassReference.name interfaceRef) w in
                  if (fst st <? n - 1)%Z
                  then Writer.write (lit ", ") w
                  else w))
              refs (i, w)))
    = buffer w ++ join (lit ", ") (map ClassReference.name refs)
    /\ indentLevel
         (snd (fold_left
                 (fun st interfaceRef =>
                    ((fst st + 1)%Z,
                     let w := addReference interfaceRef (snd st) in
                     let w :=
                       Writer.write (ClassReference.name interfaceRef) w in
                     if (fst st <? n - 1)%Z
                     then Writer.write (lit ", ") w
                     else w))
                 refs (i, w)))
       = indentLevel w.
Proof.
  induction refs as [|r refs IH]; intros i w Hn.
  - cbn. now rewrite app_nil_r.
  - cbn [fold_left fst snd]. unfold len in Hn. cbn [length] in Hn.
    destruct (IH (i + 1)%Z
                (let w := addReference r w in
                 let w := Writer.write (ClassReference.name r) w in
                 if (i <? n - 1)%Z then Writer.write (lit ", ") w else w))
      as [Hb Hl]; [unfold len; lia|].
    clear IH. destruct (addReference_text r w) as [Hb' Hl'].
    assert (buffer
              (let w := addReference r w in
               let w := Writer.write (ClassReference.name r) w in
               if (i <? n - 1)%Z then Writer.write (lit ", ") w else w)
            ++ join (lit ", ") (map ClassReference.name refs)
            = buffer w
              ++ join (lit ", ") (map ClassReference.name (r :: refs))
            /\ indentLevel
                 (let w := addReference r w in
                  let w := Writer.write (ClassReference.name r) w in
                  if (i <? n - 1)%Z then Writer.write (lit ", ") w else w)
               = indentLevel w) as [Hb'' Hl''].
    { cbv zeta. destruct refs as [|r' refs].
      - replace (i <? n - 1)%Z with false
          by (symmetry; apply Z.ltb_ge; cbn [length] in Hn; lia).
        cbn [map join]. simpl buffer. simpl indentLevel.
        now rewrite Hb', Hl', app_nil_r.
      - replace (i <? n - 1)%Z with true
          by (symmetry; apply Z.ltb_lt; cbn [length] in Hn; lia).
        cbn [map join]. simpl buffer. simpl indentLevel.
        rewrite Hb', Hl', <- !app_assoc. auto. }
    split.
    + etransitivity; [exact Hb|exact Hb''].
    + etransitivity; [exact Hl|exact Hl''].
Qed.

Lemma Emits_implements (L : Z) (implements_ : list ClassReference.t)
  (w : Writer.t) :
  Emits L 0 w
    (if (len implements_ >? 0)%Z then
       let w := Writer.write (lit " implements ") w in
       forEachIndexed
         (fun interfaceRef index w =>
            let w := addReference interfaceRef w in
            let w := Writer.write (ClassReference.name interfaceRef) w in
            if (index <? len implements_ - 1)%Z
            then Writer.write (lit ", ") w
            else w)
         implements_ w
     else w)
    match implements_ with
    | [] => []
    | _ :: _ => lit " implements "
                ++ join (lit ", ") (map ClassReference.name implements_)
    end.
Proof.
  destruct implements_ as [|r refs]; [apply Emits_same|].
  rewrite (@len_pos _ r) by now left.
  intros HL. cbv zeta. unfold forEachIndexed.
  destruct (@implements_loop (len (r :: refs)) (r :: refs) 0
              (Writer.write (lit " implements ") w)) as [Hb Hl]; [lia|].
  split.
  - etransitivity; [exact Hb|]. simpl buffer. now rewrite <- app_assoc.
  - etransitivity; [exact Hl|]. simpl indentLevel. lia.
Qed.

Lemma Emits_opening_brace (L : Z) (w : Writer.t) :
  Emits L 1 w (let w := writeLine (Some (lit " {")) w in indent w)
    (margin L ++ lit " {" ++ [nl]).
Proof.
  intros HL. cbv zeta. destruct (@Emits_writeLine L w (lit " {") HL)
    as [Hb Hl].
  simpl buffer. simpl indentLevel. split; [exact Hb|].
  simpl in Hl. lia.
Qed.

(** The buffer and the level after the declaration of a class. *)
Lemma writeDeclaration_text (c : Class_.t) (w : Writer.t) :
  Class_.annotations c = [] ->
  buffer (Class_.writeDeclaration c w)
  = buffer w
    ++ javadocText (getIndentation w) (Class_.javadoc c)
    ++ declarationText c
    ++ getIndentation w ++ lit " {" ++ [nl]
  /\ indentLevel (Class_.writeDeclaration c w) = (indentLevel w + 1)%Z.
Proof.
  intros Hann.
  assert (Emits (indentLevel w) 1 w (Class_.writeDeclaration c w)
            (javadocText (margin (indentLevel w)) (Class_.javadoc c)
             ++ []
             ++ (Class_.access c ++ lit " ")
             ++ (if Class_.abstract_ c then lit "abstract " else [])
             ++ (if Class_.final_ c then lit "final " else [])
             ++ (if Class_.static_ c then lit "static " else [])
             ++ lit "class "
             ++ Class_.name c
             ++ match Class_.typeParameters c with
                | [] => []
                | _ :: _ => lit "<" ++ join (lit ", ") (Class_.typeParameters c)
                            ++ lit ">"
                end
             ++ match Class_.extends_ c with
                | Some e => lit " extends " ++ ClassReference.name e
                | None => []
                end
             ++ match Class_.implements_ c with
                | [] => []
                | _ :: _ =>
                    lit " implements "
                    ++ join (lit ", ")
                         (map ClassReference.name (Class_.implements_ c))
                end
             ++ margin (indentLevel w) ++ lit " {" ++ [nl])) as H.
  { cbv beta delta [Class_.writeDeclaration]. rewrite Hann.
    emits_let; [apply Emits_javadoc|].
    emits_let; [apply Emits_same|].
    emits_let; [apply Emits_write|].
    emits_let; [apply Emits_modifier|].
    emits_let; [apply Emits_modifier|].
    emits_let; [apply Emits_modifier|].
    emits_let; [apply Emits_write|].
    emits_let; [apply Emits_write|].
    emits_let; [apply Emits_typeParameters|].
    emits_let; [apply Emits_extends|].
    emits_let; [apply Emits_implements|].
    apply Emits_opening_brace. }
  destruct (H eq_refl) as [Hb Hl]. split; [|exact Hl].
  rewrite Hb. unfold declarationText, getIndentation, margin.
  cbn [app]. rewrite <- !app_assoc. reflexivity.
Qed.

(** X13.  For a class without annotations, [write] begins with the JavaDoc
    block, if the class has a documentation that is not empty, and the
    declaration line: the access modifier, [abstract], [final] and [static]
    in this order, [class] and the name, the type parameters between angle
    brackets, the simple name of the supertype, the simple names of the
    interfaces separated by commas, then the indentation of the line and
    [" {"]; and it leaves the level one deeper. *)
Theorem declaration_text (c : Class_.t) (w : Writer.t) :
  Class_.annotations c = [] ->
  buffer (Class_.writeDeclaration c w)
  = buffer w
    ++ javadocText (getIndentation w) (Class_.javadoc c)
    ++ declarationText c
    ++ getIndentation w ++ lit " {" ++ [nl]
  /\ indentLevel (Class_.writeDeclaration c w) = (indentLevel w + 1)%Z.
Proof. apply writeDeclaration_text. Qed.

Lemma declaration_text_witness :
  buffer (Class_.writeDeclaration sampleClass sampleWriter)
  = buffer sampleWriter
    ++ javadocText (getIndentation sampleWriter) (Class_.javadoc sampleClass)
    ++ declarationText sampleClass
    ++ getIndentation sampleWriter ++ lit " {" ++ [nl]
  /\ indentLevel (Class_.writeDeclaration sampleClass sampleWriter)
     = (indentLevel sampleWriter + 1)%Z.
Proof.
  apply (@declaration_text sampleClass sampleWriter). reflexivity.
Defined.

(* ------------------------------------------------------------------------- *)
(** ** The text of an empty class and the head of a constructor *)

(** X14.  A class without annotations and without members is written as
    its JavaDoc block, its declaration line closed by the indentation and
    [" {"], and the line of the closing brace: the empty sections of the
    body contribute no text. *)
Theorem empty_class_text (c : Class_.t) (w : Writer.t) :
  Class_.annotations c = [] ->
  Class_.members c = [] ->
  (0 <= indentLevel w)%Z ->
  buffer (Class_.write c w)
  = buffer w
    ++ javadocText (getIndentation w) (Class_.javadoc c)
    ++ declarationText c
    ++ getIndentation w ++ lit " {" ++ [nl]
    ++ getIndentation w ++ lit "}" ++ [nl].
Proof.
  intros Hann Hmem Hw.
  destruct (@writeDeclaration_text c w Hann) as [Hb Hl].
  rewrite write_by_members, Hmem. cbn [fold_left].
  assert (indentLevel (dedent (Class_.writeDeclaration c w))
          = indentLevel w) as Hd
      by (rewrite dedent_down; rewrite Hl; lia).
  assert (buffer (dedent (Class_.writeDeclaration c w))
          = buffer (Class_.writeDeclaration c w)) as Hbd.
  { unfold dedent.
    now destruct (indentLevel (Class_.writeDeclaration c w) >? 0)%Z. }
  destruct (@Emits_writeLine (indentLevel w)
              (dedent (Class_.writeDeclaration c w)) (lit "}") Hd)
    as [Hb' _].
  rewrite Hb', Hbd, Hb. unfold getIndentation, margin.
  now rewrite <- !app_assoc.
Qed.

Lemma empty_class_text_witness :
  buffer (Class_.write simpleClass sampleWriter)
  = buffer sampleWriter
    ++ javadocText (getIndentation sampleWriter) (Class_.javadoc simpleClass)
    ++ declarationText simpleClass
    ++ getIndentation sampleWriter ++ lit " {" ++ [nl]
    ++ getIndentation sampleWriter ++ lit "}" ++ [nl].
Proof.
  apply (@empty_class_text simpleClass sampleWriter);
    [reflexivity | reflexivity | cbn; lia].
Defined.

(** The class of the first test of the suite, on a fresh writer. *)
Example simpleClass_document :
  toString (Class_.write simpleClass sampleWriter)
  = join [nl]
      [lit "package com.example;";
       lit "";
       lit "public class SimpleClass {";
       lit "}";
       lit ""].
Proof. vm_compute. reflexivity. Qed.

Lemma Emits_param_lines (L : Z) (params : list Parameter_.t)
  (w : Writer.t) :
  Emits L 0 w
    (forEach
       (fun param w =>
          match Parameter_.docs param with
          | Some ((_ :: _) as docs) =>
              writeLine
                (Some (lit " * @param " ++ Parameter_.name param
                       ++ lit " " ++ docs)) w
          | _ => w
          end)
       params w)
    (concat
       (map (fun param =>
               match Parameter_.docs param with
               | Some ((_ :: _) as docs) =>
                   margin L
                   ++ (lit " * @param " ++ Parameter_.name param
                       ++ lit " " ++ docs)
                   ++ [nl]
               | _ => []
               end)
            params)).
Proof.
  unfold forEach. revert w; induction params as [|p params IH]; intros w.
  - apply Emits_same.
  - cbn [fold_left map concat].
    apply (@Emits_let L 0 w
             match Parameter_.docs p with
             | Some ((_ :: _) as docs) =>
                 writeLine
                   (Some (lit " * @param " ++ Parameter_.name p
                          ++ lit " " ++ docs)) w
             | _ => w
             end
             (fun x =>
                fold_left
                  (fun w param =>
                     match Parameter_.docs param with
                     | Some ((_ :: _) as docs) =>
                         writeLine
                           (Some (lit " * @param " ++ Parameter_.name param
                                  ++ lit " " ++ docs)) w
                     | _ => w
                     end)
                  params x)).
    + destruct (Parameter_.docs p) as [[|c docs]|];
        first [apply Emits_same | apply Emits_writeLine].
    + intros x. apply IH.
Qed.

Lemma Emits_constructor_javadoc (L : Z) (k : Constructor.t) (w : Writer.t) :
  Emits L 0 w
    (if truthy (Constructor.javadoc k)
        || existsb (fun param => truthy (Parameter_.docs param))
                   (Constructor.parameters k)
     then
       let w := writeLine (Some (lit "/**")) w in
       let w :=
         match Constructor.javadoc k with
         | Some ((_ :: _) as javadoc) =>
             forEach (fun line => writeLine (Some (lit " * " ++ line)))
                     (split_nl javadoc) w
         | _ => w
         end in
       let w :=
         forEach
           (fun param w =>
              match Parameter_.docs param with
              | Some ((_ :: _) as docs) =>
                  writeLine
                    (Some (lit " * @param " ++ Parameter_.name param
                           ++ lit " " ++ docs)) w
              | _ => w
              end)
           (Constructor.parameters k) w in
       writeLine (Some (lit " */")) w
     else w)
    (constructorJavadocText (margin L) k).
Proof.
  cbv beta delta [constructorJavadocText].
  destruct (truthy (Constructor.javadoc k)
            || existsb (fun param => truthy (Parameter_.docs param))
                       (Constructor.parameters k)); [|apply Emits_same].
  emits_let; [apply Emits_writeLine|].
  emits_let.
  { destruct (Constructor.javadoc k) as [[|c doc]|];
      first [apply Emits_same | apply Emits_javadoc_lines]. }
  emits_let; [apply Emits_param_lines|].
  apply Emits_writeLine.
Qed.

Lemma starts_let (L : Z) (w e : Writer.t) (b : Writer.t -> Writer.t)
  (t1 t2 : jsstring) :
  Emits L 0 w e t1 -> indentLevel w = L ->
  (forall x, indentLevel x = L ->
             exists rest, buffer (b x) = buffer x ++ t2 ++ rest) ->
  exists rest, buffer (let x := e in b x) = buffer w ++ (t1 ++ t2) ++ rest.
Proof.
  intros H1 HL H2. cbv zeta. destruct (H1 HL) as [Hb Hl].
  rewrite Z.add_0_r in Hl. destruct (H2 e Hl) as [rest Hrest].
  exists rest. now rewrite Hrest, Hb, <- !app_assoc.
Qed.

Ltac starts_let :=
  lazymatch goal with
  | HL : indentLevel ?w = ?L
    |- exists rest, buffer (let x := ?e in @?b x)
                    = buffer ?w ++ (?t1 ++ ?t2) ++ rest =>
      apply (@starts_let L w e b t1 t2);
      [ | exact HL | clear dependent w; intros ? HL; cbv beta]
  end.

Lemma constructorOpening_head (this_name : jsstring) (k : Constructor.t)
  (w : Writer.t) :
  Class_.orEmpty (Constructor.annotations k) = [] ->
  exists rest,
    buffer (Class_.constructorOpening this_name k w)
    = buffer w
      ++ (constructorJavadocText (getIndentation w) k
          ++ []
          ++ (Constructor.access k ++ lit " " ++ this_name ++ lit "(")
          ++ [])
      ++ rest.
Proof.
  intros Hann.
  change (getIndentation w) with (margin (indentLevel w)).
  remember (indentLevel w) as L eqn:HL. symmetry in HL.
  cbv beta delta [Class_.constructorOpening].
  starts_let; [apply Emits_constructor_javadoc|].
  starts_let.
  { destruct (Constructor.annotations k) as [[|a l]|];
      try discriminate; apply Emits_same. }
  starts_let; [apply Emits_write|].
  match goal with
  | |- exists rest, buffer ?e = buffer ?x ++ [] ++ rest =>
      assert (Extends x e) as [rest Hrest] by extends;
      exists rest; exact Hrest
  end.
Qed.

(** X15.  A constructor without annotations is written as its JavaDoc block
    -- present when the constructor has a documentation that is not empty
    or when one of its parameters has one, with an [@param] line for each
    such parameter -- followed by the access modifier, the name of the
    class and the opening parenthesis. *)
Theorem constructor_head_text
  (this_name : jsstring) (k : Constructor.t) (w : Writer.t) :
  Class_.orEmpty (Constructor.annotations k) = [] ->
  exists rest,
    buffer (Class_.writeConstructor this_name k w)
    = buffer w
      ++ constructorJavadocText (getIndentation w) k
      ++ (Constructor.access k ++ lit " " ++ this_name ++ lit "(")
      ++ rest.
Proof.
  intros Hann.
  destruct (@constructorOpening_head this_name k w Hann) as [rest1 H1].
  assert (Extends (Class_.constructorOpening this_name k w)
                  (Class_.writeConstructor this_name k w)) as [rest2 H2].
  { rewrite writeConstructor_phases.
    eapply Extends_trans; [apply Extends_constructorDelegation|].
    apply Extends_constructorClosing. }
  exists (rest1 ++ rest2). rewrite H2, H1.
  cbn [app]. rewrite <- !app_assoc. reflexivity.
Qed.

Lemma constructor_head_text_witness :
  exists rest,
    buffer (Class_.writeConstructor (lit "Point") sampleConstructor
              sampleWriter)
    = buffer sampleWriter
      ++ constructorJavadocText (getIndentation sampleWriter)
           sampleConstructor
      ++ (Constructor.access sampleConstructor ++ lit " " ++ lit "Point"
          ++ lit "(")
      ++ rest.
Proof.
  apply (@constructor_head_text (lit "Point") sampleConstructor
           sampleWriter).
  reflexivity.
Defined.

(* ------------------------------------------------------------------------- *)
(** ** The body of a class, whatever its members write *)




(** The document of [writeOnlyClass]. *)
Example writeOnlyClass_document :
  toString (Class_.write writeOnlyClass sampleWriter)
  = join [nl]
      [lit "package com.example;";
       lit "";
       lit "public class K {";
       lit "void a();";
       lit "void b();";
       lit "enum E {}";
       lit "}";
       lit ""].
Proof. vm_compute. reflexivity. Qed.


